(** * image-docs-go: upload queue, OCR adapter, run orchestrator, document export

    A shallow embedding of the sources of the repository:

      - [src/components/ImageUpload.tsx]: module [ImageUpload];
      - [src/lib/ocrService.ts]: module [OcrService];
      - the file imported as [@/lib/pdfGenerator]: module [PdfGenerator];
      - the components [DocumentPreview] and [DocumentConverter]: the
        modules of these names.

    React state is modelled by explicit state passing, [toast] calls by a
    log, a JS object used as a dictionary by [gmap], strings by [string]
    (one character per code unit), and everything the browser or a
    third-party library decides (the clock, file readers, the canvas, the
    recognition engine) by inputs the theorems quantify over. Numbers that
    are doubles in the source and are not integers there (the confidence,
    the resize ratio, the progress percentage) are exact rationals here;
    no statement below depends on their rounding. *)

From Stdlib Require Import ZArith QArith Qminmax List String Ascii Lia.
From stdpp Require Import base option list gmap strings pretty.
Import ListNotations.

#[local] Open Scope string_scope.
#[local] Open Scope list_scope.

(** ** JavaScript values used by the sources *)

Module JS.

(** Truthiness of an optional string property: [undefined] and [''] are
    falsy, every other string is truthy. *)
Definition truthy (o : option string) : bool :=
  match o with
  | None => false
  | Some s => negb (String.eqb s "")
  end.

(** [a || b] on optional strings. *)
Definition or (a b : option string) : option string :=
  if truthy a then a else b.

(** [s.startsWith(p)]. *)
Definition startsWith (p s : string) : bool := String.prefix p s.

Definition code (c : ascii) : N := N_of_ascii c.

Definition is_digit (c : ascii) : bool := ((48 <=? code c) && (code c <=? 57))%N.
Definition is_lower (c : ascii) : bool := ((97 <=? code c) && (code c <=? 122))%N.
Definition is_upper (c : ascii) : bool := ((65 <=? code c) && (code c <=? 90))%N.

(** Membership in the class [[a-z0-9]] under the flag [i] (no flag [u]):
    a code unit belongs to it when its canonical form is one of
    [A-Z0-9]; canonicalisation never maps a unit above 127 into ASCII,
    so the members are exactly the ASCII letters and digits. *)
Definition in_class_az09_i (c : ascii) : bool :=
  is_lower c || is_upper c || is_digit c.

(** [s.replace(/[^a-z0-9]/gi, '_')]: the flag [g] replaces every match,
    and each match is a single code unit. *)
Fixpoint replace_non_alnum (s : string) : string :=
  match s with
  | EmptyString => EmptyString
  | String c s' =>
      String (if in_class_az09_i c then c else "_"%char) (replace_non_alnum s')
  end.

(** Lower-casing of one code unit below 256: [A-Z], and the Latin-1
    capitals U+00C0..U+00DE except the multiplication sign U+00D7. *)
Definition lower_char (c : ascii) : ascii :=
  if is_upper c then ascii_of_N (code c + 32)
  else if ((192 <=? code c) && (code c <=? 222) && negb (code c =? 215))%N
       then ascii_of_N (code c + 32)
       else c.

(** [s.toLowerCase()]. *)
Fixpoint toLowerCase (s : string) : string :=
  match s with
  | EmptyString => EmptyString
  | String c s' => String (lower_char c) (toLowerCase s')
  end.

End JS.

(** Calls of [toast.error], [toast.info] and [toast.success] (sonner), in
    the order they are made. *)
Inductive toast : Type :=
| toast_error (message : string)
| toast_info (message : string)
| toast_success (message : string).

Definition is_toast_error (t : toast) : bool :=
  match t with toast_error _ => true | _ => false end.

(** ** [ImageUpload.tsx] *)

Module ImageUpload.

(** The browser's [File]: the three properties the sources read. *)
Record File : Type := mkFile {
  name : string;
  type : string;
  size : N
}.

Inductive Status : Type := pending | processing | completed | error.

Definition Status_eqb (a b : Status) : bool :=
  match a, b with
  | pending, pending | processing, processing
  | completed, completed | error, error => true
  | _, _ => false
  end.

(** [interface UploadedFile]. *)
Record UploadedFile : Type := mkUploadedFile {
  id : string;
  file : File;
  preview : string;
  status : Status;
  extractedText : option string
}.

(** One pass of the callback given to [acceptedFiles.filter] in [onDrop]:
    the verdict, and the toast it raises on the way. *)
Definition check (f : File) : bool * list toast :=
  if negb (JS.startsWith "image/" (type f)) then
    (false, [toast_error (name f ++ " is not a valid image file")])
  else if (10 * 1024 * 1024 <? size f)%N then
    (false, [toast_error (name f ++ " is too large (max 10MB)")])
  else (true, []).

(** [acceptedFiles.filter(file => ...)], with the toasts of all passes. *)
Fixpoint validFiles (acceptedFiles : list File) : list File * list toast :=
  match acceptedFiles with
  | [] => ([], [])
  | f :: rest =>
      let '(ok, ts) := check f in
      let '(vs, ts') := validFiles rest in
      (if ok then f :: vs else vs, ts ++ ts')
  end.

(** A [load] event of one of the batch's [FileReader]s: which reader
    (the [index] its callback closed over), what [Date.now()] returns
    inside the callback, and [reader.result]. A reader whose read fails
    raises [error] instead, for which [onDrop] installs no handler, so it
    contributes no event. *)
Record LoadEvent : Type := mkLoadEvent {
  index : nat;
  now : N;
  result : string
}.

(** What the [onload] callbacks of one batch share: the local array
    [uploadedFiles], the files handed to [onFilesAdded] so far, and
    the toasts. The state variable [uploadProgress] only drives the
    progress bar and is left out. *)
Record Batch : Type := mkBatch {
  uploadedFiles : list UploadedFile;
  added : list UploadedFile;
  toasts : list toast
}.

(** The object [uploadedFile] built by [reader.onload] (lines 47-52). *)
Definition uploadedFile (f : File) (ev : LoadEvent) : UploadedFile :=
  {| id := pretty (now ev) ++ "-" ++ pretty (index ev);
     file := f;
     preview := result ev;
     status := pending;
     extractedText := None |}.

(** [reader.onload] for the reader of [validFiles[index]]. *)
Definition onload (valid : list File) (ev : LoadEvent) (b : Batch) : Batch :=
  match valid !! index ev with
  | None => b
  | Some f =>
      let uploadedFiles' := uploadedFiles b ++ [uploadedFile f ev] in
      if (length uploadedFiles' =? length valid)%nat then
        {| uploadedFiles := uploadedFiles';
           added := added b ++ uploadedFiles';
           toasts := toasts b ++
             [toast_success (pretty (length valid) ++ " image(s) uploaded successfully!")] |}
      else
        {| uploadedFiles := uploadedFiles'; added := added b; toasts := toasts b |}
  end.

(** [onDrop(acceptedFiles)], followed by the [load] events of its readers
    in the order the browser delivers them. The result is what reached
    [onFilesAdded] and every toast raised. *)
Definition onDrop (acceptedFiles : list File) (loads : list LoadEvent)
  : list UploadedFile * list toast :=
  let '(valid, ts) := validFiles acceptedFiles in
  if (length valid =? 0)%nat then ([], ts)
  else
    let b := fold_left (fun b ev => onload valid ev b) loads
               {| uploadedFiles := []; added := []; toasts := ts |} in
    (added b, toasts b).

End ImageUpload.

(** ** [ocrService.ts] *)

Module OcrService.
Import ImageUpload.

(** What [await ocrPipeline(imageData)] resolves to: an object whose
    property [generated_text] may be missing. *)
Record Output : Type := mkOutput { generated_text : option string }.

(** The value [pipeline(...)] resolves to. It is called with the data URL
    of the canvas; [None] stands for a call that rejects, or resolves to
    [null] or [undefined] (reading [generated_text] then throws). *)
Definition Pipeline : Type := string -> option Output.

(** [interface OCRResult]. *)
Record OCRResult : Type := mkOCRResult { text : string; confidence : Q }.

(** [HTMLImageElement]: its dimensions, and its pixels as an opaque value. *)
Record HTMLImageElement : Type := mkImage {
  width : N;
  height : N;
  pixels : string
}.

(** The browser and the transformers.js runtime. *)
Record Env : Type := mkEnv {
  (** the outcome of the [k]-th call of [pipeline(...)], counted from 0 *)
  pipeline : nat -> option Pipeline;
  (** [canvas.getContext('2d')] is not null *)
  getContext : bool;
  (** [drawImage] at the given size followed by
      [canvas.toDataURL('image/jpeg', 0.8)] *)
  toDataURL : HTMLImageElement -> Q -> Q -> string;
  (** [loadImage(file)] (lines 69-76): the decoded image, or [None] when
      [img.onerror] rejects the promise *)
  loadImage : File -> option HTMLImageElement
}.

(** The module-level state: the variable [ocrPipeline], the number of
    times [pipeline(...)] has been called so far, the calls of it that
    have not settled yet, the number of assignments to [ocrPipeline], and
    the number of calls [ocrPipeline(imageData)] made so far. *)
Record Module_ : Type := mkModule {
  ocrPipeline : option Pipeline;
  created : nat;
  inflight : list nat;
  assigned : nat;
  inferences : nat
}.

Definition initial : Module_ :=
  {| ocrPipeline := None; created := 0; inflight := []; assigned := 0;
     inferences := 0 |}.

Definition infer (m : Module_) : Module_ :=
  {| ocrPipeline := ocrPipeline m; created := created m; inflight := inflight m;
     assigned := assigned m; inferences := S (inferences m) |}.

(** *** Asynchronous view

    An [async] function runs synchronously up to its first [await], so
    the test [!ocrPipeline] and the call [pipeline(...)] form one atomic
    step, and the assignment [ocrPipeline = ...] happens in a later one,
    when the promise settles. *)

Inductive Event : Type :=
| call_initializeOCR
| call_extractTextFromImage
| settle (k : nat).

Definition is_call (e : Event) : bool :=
  match e with settle _ => false | _ => true end.

(** Lines 15-21, up to the [await]. *)
Definition enter_initializeOCR (m : Module_) : Module_ :=
  match ocrPipeline m with
  | Some _ => m
  | None =>
      {| ocrPipeline := None;
         created := S (created m);
         inflight := inflight m ++ [created m];
         assigned := assigned m;
         inferences := inferences m |}
  end.

(** Lines 28-30, up to the [await]: with the pipeline unset the call goes
    through [initializeOCR]; otherwise no initialization is started. *)
Definition enter_extractTextFromImage (m : Module_) : Module_ :=
  match ocrPipeline m with
  | Some _ => m
  | None => enter_initializeOCR m
  end.

(** The promise of the [k]-th [pipeline(...)] call settles: on success the
    continuation of line 17 assigns [ocrPipeline]; a rejection propagates
    to the caller and assigns nothing. *)
Definition settled (env : Env) (k : nat) (m : Module_) : Module_ :=
  if bool_decide (k ∈ inflight m) then
    match pipeline env k with
    | Some p =>
        {| ocrPipeline := Some p;
           created := created m;
           inflight := List.filter (fun j => negb (j =? k)%nat) (inflight m);
           assigned := S (assigned m);
           inferences := inferences m |}
    | None =>
        {| ocrPipeline := ocrPipeline m;
           created := created m;
           inflight := List.filter (fun j => negb (j =? k)%nat) (inflight m);
           assigned := assigned m;
           inferences := inferences m |}
    end
  else m.

Definition step (env : Env) (m : Module_) (e : Event) : Module_ :=
  match e with
  | call_initializeOCR => enter_initializeOCR m
  | call_extractTextFromImage => enter_extractTextFromImage m
  | settle k => settled env k m
  end.

Definition exec (env : Env) (es : list Event) (m : Module_) : Module_ :=
  fold_left (step env) es m.

(** No call is made while an earlier initialization is in progress. *)
Fixpoint sequential (env : Env) (es : list Event) (m : Module_) : bool :=
  match es with
  | [] => true
  | e :: es' =>
      (if is_call e then bool_decide (inflight m = []) else true)
      && sequential env es' (step env m e)
  end.

(** *** Sequential view

    A caller that awaits each call before making the next one sees
    [initializeOCR] as one step: [inl tt] when it throws. *)
Definition initializeOCR (env : Env) (m : Module_) : Module_ * (unit + unit) :=
  match ocrPipeline m with
  | Some _ => (m, inr tt)
  | None =>
      let m' := settled env (created m) (enter_initializeOCR m) in
      (m', match pipeline env (created m) with
           | Some _ => inr tt
           | None => inl tt
           end)
  end.

(** Lines 41-48. Exact rationals stand for the doubles of the source; a
    quotient by a zero dimension is [Infinity] there, which [Math.min]
    never selects against a finite operand. *)
Definition maxSize : Q := 1024.

Definition resize (img : HTMLImageElement) : Q * Q :=
  let w := inject_Z (Z.of_N (width img)) in
  let h := inject_Z (Z.of_N (height img)) in
  if (1024 <? width img)%N || (1024 <? height img)%N then
    let ratio :=
      if (width img =? 0)%N then (maxSize / h)%Q
      else if (height img =? 0)%N then (maxSize / w)%Q
      else Qmin (maxSize / w) (maxSize / h) in
    ((w * ratio)%Q, (h * ratio)%Q)
  else (w, h).

(** The error thrown by the [catch] of [extractTextFromImage]. *)
Definition failure : string := "Failed to extract text from image".

(** [extractTextFromImage(imageElement)], awaited: the new module state
    and either the thrown error's message or the result. *)
Definition extractTextFromImage (env : Env) (imageElement : HTMLImageElement)
    (m : Module_) : Module_ * (string + OCRResult) :=
  let '(m1, init) :=
    match ocrPipeline m with
    | Some _ => (m, inr tt)
    | None => initializeOCR env m
    end in
  match init with
  | inl _ => (m1, inl failure)
  | inr _ =>
      if negb (getContext env) then (m1, inl failure)
      else
        let '(width, height) := resize imageElement in
        let imageData := toDataURL env imageElement width height in
        match ocrPipeline m1 with
        | None => (m1, inl failure)
        | Some run =>
            match run imageData with
            | None => (infer m1, inl failure)
            | Some result =>
                (infer m1,
                 inr {| text := default "" (JS.or (generated_text result) (Some ""));
                        confidence := 0.8 |})
            end
        end
  end.

End OcrService.

(** ** [pdfGenerator.ts] *)

Module PdfGenerator.

(** [interface DocumentSection]. *)
Record DocumentSection : Type := mkSection {
  title : option string;
  content : string;
  imageUrl : option string
}.

(** [interface DocumentOptions]; [doc_title] is its property [title]. *)
Record DocumentOptions : Type := mkOptions {
  doc_title : option string;
  author : option string;
  subject : option string;
  sections : list DocumentSection
}.

(** The expression both renderers apply to a truthy [options.title]. *)
Definition base_name (t : string) : string :=
  JS.toLowerCase (JS.replace_non_alnum t).

(** The [filename] given to [doc.save] by [generatePDF] (lines 97-101);
    the page layout is the work of jsPDF. *)
Definition generatePDF_filename (options : DocumentOptions) : string :=
  if JS.truthy (doc_title options)
  then base_name (default "" (doc_title options)) ++ ".pdf"
  else "extracted_document.pdf".

(** The [filename] set as [link.download] by [generateTextFile]
    (lines 141-146). *)
Definition generateTextFile_filename (options : DocumentOptions) : string :=
  if JS.truthy (doc_title options)
  then base_name (default "" (doc_title options)) ++ ".txt"
  else "extracted_document.txt".

End PdfGenerator.

(** ** [DocumentPreview.tsx] *)

Module DocumentPreview.
Import ImageUpload.

(** The component's state. [editedSections] is a JS object used as a
    dictionary from file ids to replacement texts; ids are made of digits
    and a dash, so no lookup falls through to a property of
    [Object.prototype]. *)
Record State : Type := mkState {
  documentTitle : string;
  author : string;
  editedSections : gmap string string
}.

(** [useState] initial values. *)
Definition initial : State :=
  {| documentTitle := "Extracted Document"; author := ""; editedSections := ∅ |}.

(** Line 22. *)
Definition completedFiles (files : list UploadedFile) : list UploadedFile :=
  List.filter
    (fun file => Status_eqb (status file) completed && JS.truthy (extractedText file))
    files.

(** Lines 24-26: [setEditedSections(prev => ({ ...prev, [fileId]: newText }))]. *)
Definition handleSectionEdit (fileId newText : string) (st : State) : State :=
  {| documentTitle := documentTitle st;
     author := author st;
     editedSections := <[fileId := newText]> (editedSections st) |}.

(** Lines 28-30: [editedSections[file.id] || file.extractedText || '']. *)
Definition getSectionContent (st : State) (file : UploadedFile) : string :=
  default "" (JS.or (JS.or (editedSections st !! id file) (extractedText file)) (Some "")).

(** The object built by the callback of [completedFiles.map] (lines 33-36
    and 49-52). *)
Definition section (st : State) (index : nat) (file : UploadedFile)
  : PdfGenerator.DocumentSection :=
  {| PdfGenerator.title :=
       Some ("Section " ++ pretty (index + 1)%nat ++ " - "
               ++ name (ImageUpload.file file))%string;
     PdfGenerator.content := getSectionContent st file;
     PdfGenerator.imageUrl := None |}.

(** The [options] value both [exportToPDF] and [exportToText] build. *)
Definition options (st : State) (files : list UploadedFile)
  : PdfGenerator.DocumentOptions :=
  {| PdfGenerator.doc_title := Some (documentTitle st);
     PdfGenerator.author := JS.or (Some (author st)) None;
     PdfGenerator.subject := Some "Document extracted from images using OCR";
     PdfGenerator.sections := imap (section st) (completedFiles files) |}.

(** [exportToPDF] and [exportToText]: the name of the file downloaded. *)
Definition exportToPDF (st : State) (files : list UploadedFile) : string :=
  PdfGenerator.generatePDF_filename (options st files).

Definition exportToText (st : State) (files : list UploadedFile) : string :=
  PdfGenerator.generateTextFile_filename (options st files).

End DocumentPreview.

(** ** [DocumentConverter.tsx] *)

Module DocumentConverter.
Import ImageUpload.

(** The component's four state variables, the module state of
    [ocrService.ts], the toasts raised, and the files handed to the OCR
    adapter ([loadImage] followed by [extractTextFromImage]) so far. *)
Record State : Type := mkState {
  files : list UploadedFile;
  isProcessing : bool;
  processingProgress : Q;
  ocrInitialized : bool;
  ocr : OcrService.Module_;
  toasts : list toast;
  attempts : list File
}.

Definition initial : State :=
  {| files := []; isProcessing := false; processingProgress := 0;
     ocrInitialized := false; ocr := OcrService.initial; toasts := [];
     attempts := [] |}.

Definition setFiles (u : list UploadedFile -> list UploadedFile) (st : State) : State :=
  {| files := u (files st); isProcessing := isProcessing st;
     processingProgress := processingProgress st;
     ocrInitialized := ocrInitialized st; ocr := ocr st; toasts := toasts st;
     attempts := attempts st |}.

Definition setIsProcessing (b : bool) (st : State) : State :=
  {| files := files st; isProcessing := b;
     processingProgress := processingProgress st;
     ocrInitialized := ocrInitialized st; ocr := ocr st; toasts := toasts st;
     attempts := attempts st |}.

Definition setProcessingProgress (q : Q) (st : State) : State :=
  {| files := files st; isProcessing := isProcessing st;
     processingProgress := q;
     ocrInitialized := ocrInitialized st; ocr := ocr st; toasts := toasts st;
     attempts := attempts st |}.

Definition setOcrInitialized (b : bool) (st : State) : State :=
  {| files := files st; isProcessing := isProcessing st;
     processingProgress := processingProgress st;
     ocrInitialized := b; ocr := ocr st; toasts := toasts st;
     attempts := attempts st |}.

Definition set_ocr (m : OcrService.Module_) (st : State) : State :=
  {| files := files st; isProcessing := isProcessing st;
     processingProgress := processingProgress st;
     ocrInitialized := ocrInitialized st; ocr := m; toasts := toasts st;
     attempts := attempts st |}.

Definition raise (t : toast) (st : State) : State :=
  {| files := files st; isProcessing := isProcessing st;
     processingProgress := processingProgress st;
     ocrInitialized := ocrInitialized st; ocr := ocr st;
     toasts := toasts st ++ [t];
     attempts := attempts st |}.

Definition attempt (f : File) (st : State) : State :=
  {| files := files st; isProcessing := isProcessing st;
     processingProgress := processingProgress st;
     ocrInitialized := ocrInitialized st; ocr := ocr st; toasts := toasts st;
     attempts := attempts st ++ [f] |}.

(** Line 204. *)
Definition handleFilesAdded (newFiles : list UploadedFile) (st : State) : State :=
  setFiles (fun prev => prev ++ newFiles) st.

(** A drop on the upload area: [onDrop] with [handleFilesAdded] as its
    [onFilesAdded], followed by the [load] events of its readers. *)
Definition drop (acceptedFiles : list File) (loads : list LoadEvent) (st : State)
  : State :=
  let '(newFiles, ts) := ImageUpload.onDrop acceptedFiles loads in
  let st := handleFilesAdded newFiles st in
  {| files := files st; isProcessing := isProcessing st;
     processingProgress := processingProgress st;
     ocrInitialized := ocrInitialized st; ocr := ocr st;
     toasts := toasts st ++ ts;
     attempts := attempts st |}.

(** Line 208. *)
Definition handleFileRemove (target : string) (st : State) : State :=
  setFiles (List.filter (fun file => negb (String.eqb (id file) target))) st.

(** The three object spreads of [processImages]. *)
Definition as_processing (f : UploadedFile) : UploadedFile :=
  {| id := id f; file := file f; preview := preview f;
     status := processing; extractedText := extractedText f |}.

Definition as_completed (t : string) (f : UploadedFile) : UploadedFile :=
  {| id := id f; file := file f; preview := preview f;
     status := completed; extractedText := Some t |}.

Definition as_error (f : UploadedFile) : UploadedFile :=
  {| id := id f; file := file f; preview := preview f;
     status := error; extractedText := extractedText f |}.

(** [prev.map(f => f.id === file.id ? u(f) : f)]. *)
Definition update (target : string) (u : UploadedFile -> UploadedFile)
    (prev : list UploadedFile) : list UploadedFile :=
  List.map (fun f => if String.eqb (id f) target then u f else f) prev.

(** The adapter as the loop uses it (lines 247-248): [loadImage], then
    [extractTextFromImage]; [inl] when either throws. *)
Definition recognize (env : OcrService.Env) (f : File) (m : OcrService.Module_)
  : OcrService.Module_ * (string + OcrService.OCRResult) :=
  match OcrService.loadImage env f with
  | None => (m, inl "error")
  | Some imageElement => OcrService.extractTextFromImage env imageElement m
  end.

(** The body of the [for] loop (lines 238-270) for [pendingFiles[i]],
    [n] being [pendingFiles.length]. *)
Definition iteration (env : OcrService.Env) (n i : nat) (file : UploadedFile)
    (st : State) : State :=
  let st := setFiles (update (id file) as_processing) st in
  let st := attempt (ImageUpload.file file) st in
  let '(m, r) := recognize env (ImageUpload.file file) (ocr st) in
  let st := set_ocr m st in
  let st :=
    match r with
    | inr result =>
        raise (toast_success ("Extracted text from " ++ name (ImageUpload.file file)))
          (setFiles (update (id file) (as_completed (OcrService.text result))) st)
    | inl _ =>
        raise (toast_error ("Failed to process " ++ name (ImageUpload.file file)))
          (setFiles (update (id file) as_error) st)
    end in
  setProcessingProgress
    (inject_Z (Z.of_nat (i + 1)) / inject_Z (Z.of_nat n) * 100)%Q st.

(** The [for] loop from index [i] on, over the rest of [pendingFiles]. *)
Fixpoint loop (env : OcrService.Env) (n i : nat) (rest : list UploadedFile)
    (st : State) : State :=
  match rest with
  | [] => st
  | file :: rest' => loop env n (S i) rest' (iteration env n i file st)
  end.

(** Line 228. *)
Definition pendingFiles (fs : list UploadedFile) : list UploadedFile :=
  List.filter (fun file => Status_eqb (status file) pending) fs.

(** The [finally] block. *)
Definition finally (st : State) : State :=
  setProcessingProgress 0 (setIsProcessing false st).

(** Lines 221-226: [inl tt] when [initializeOCR] throws. *)
Definition ensure_initialized (env : OcrService.Env) (st : State)
  : State * (unit + unit) :=
  if negb (ocrInitialized st) then
    let st := raise (toast_info "Initializing OCR engine...") st in
    let '(m, r) := OcrService.initializeOCR env (ocr st) in
    match r with
    | inr _ => (setOcrInitialized true (set_ocr m st), inr tt)
    | inl _ => (set_ocr m st, inl tt)
    end
  else (st, inr tt).

(** [processImages()], run to completion with no other event in between. *)
Definition processImages (env : OcrService.Env) (st : State) : State :=
  if (length (files st) =? 0)%nat then
    raise (toast_error "Please upload some images first") st
  else
    let targets := pendingFiles (files st) in
    let st := setProcessingProgress 0 (setIsProcessing true st) in
    let '(st, init) := ensure_initialized env st in
    match init with
    | inl _ => finally (raise (toast_error "Failed to process images") st)
    | inr _ =>
        if (length targets =? 0)%nat then
          finally (setIsProcessing false
                     (raise (toast_info "All images have already been processed") st))
        else
          finally (raise (toast_success "All images processed successfully!")
                     (loop env (length targets) 0 targets st))
    end.

End DocumentConverter.

(** ** The spec's wording, for comparison with the definitions above *)

Module Spec.
Import ImageUpload.

(** "lower-cased, non-alphanumeric characters replaced", read off the
    alphabet itself: the letters and digits are listed, a capital letter
    becomes the small letter at the same place of the alphabet, a small
    letter or a digit stays, and every other character becomes an
    underscore. *)
Definition capitals : string := "ABCDEFGHIJKLMNOPQRSTUVWXYZ".
Definition smalls : string := "abcdefghijklmnopqrstuvwxyz".
Definition digits : string := "0123456789".

(** The place of the first [c] in [s]. *)
Fixpoint place (c : ascii) (s : string) : option nat :=
  match s with
  | EmptyString => None
  | String d s' => if Ascii.eqb c d then Some 0%nat else S <$> place c s'
  end.

Definition base_char (c : ascii) : ascii :=
  match place c capitals with
  | Some i => default c (String.get i smalls)
  | None =>
      match place c smalls, place c digits with
      | None, None => "_"%char
      | _, _ => c
      end
  end.

Fixpoint base_name (t : string) : string :=
  match t with
  | EmptyString => EmptyString
  | String c t' => String (base_char c) (base_name t')
  end.

(** "or a fixed fallback name if no title is set". *)
Definition file_base (title : option string) : string :=
  match title with
  | None => "extracted_document"
  | Some t => if String.eqb t "" then "extracted_document" else base_name t
  end.

(** "an ordered list of sections, one per [keep]-file, each titled with
    its position and source file name", with the body given by [body]:
    a walk over the queue that numbers the files it keeps. *)
Fixpoint assemble (keep : UploadedFile -> bool) (body : UploadedFile -> string)
    (position : nat) (queue : list UploadedFile)
  : list PdfGenerator.DocumentSection :=
  match queue with
  | [] => []
  | f :: rest =>
      if keep f then
        {| PdfGenerator.title :=
             Some ("Section " ++ pretty (position + 1)%nat ++ " - "
                     ++ name (file f))%string;
           PdfGenerator.content := body f;
           PdfGenerator.imageUrl := None |}
        :: assemble keep body (S position) rest
      else assemble keep body position rest
  end.

(** "reject any whose declared media type is not an image type, and any
    exceeding a fixed size ceiling (10 MiB)". *)
Definition accepted (f : File) : bool :=
  JS.startsWith "image/" (type f) && (size f <=? 10 * 1024 * 1024)%N.

Definition is_completed (f : UploadedFile) : bool := Status_eqb (status f) completed.

(** "files still in pending". *)
Definition still_pending (f : UploadedFile) : bool :=
  match status f with
  | pending => true
  | _ => false
  end.

Definition has_text (f : UploadedFile) : bool :=
  Status_eqb (status f) completed && JS.truthy (extractedText f).

(** "body equal to the overlay value for that file id if present else the
    stored extracted text". *)
Definition body (overlay : gmap string string) (f : UploadedFile) : string :=
  match overlay !! id f with
  | Some t => t
  | None => default "" (extractedText f)
  end.

(** The same, with an empty overlay value counted as no value. *)
Definition body_nonempty (overlay : gmap string string) (f : UploadedFile) : string :=
  match overlay !! id f with
  | Some t => if String.eqb t "" then default "" (extractedText f) else t
  | None => default "" (extractedText f)
  end.

End Spec.

(** The data URL handed to the engine for an image. *)
Definition imageData (env : OcrService.Env) (img : OcrService.HTMLImageElement) : string :=
  OcrService.toDataURL env img (fst (OcrService.resize img)) (snd (OcrService.resize img)).

(** The string has no dash in it. *)
Fixpoint no_dash (s : string) : bool :=
  match s with
  | EmptyString => true
  | String c s' => negb (Ascii.eqb c "-") && no_dash s'
  end.

(** The records the [load] events [loads] of a batch produce, in order. *)
Definition records (valid : list ImageUpload.File) (loads : list ImageUpload.LoadEvent)
  : list ImageUpload.UploadedFile :=
  omap (fun ev => (fun f => ImageUpload.uploadedFile f ev) <$> valid !! ImageUpload.index ev)
       loads.

(** ** Concrete inputs used by the examples below *)

Module Examples.
Import ImageUpload.

Definition png (n : string) : File :=
  {| name := n; type := "image/png"; size := 2048 |}.

Definition record (i : string) (n : string) (s : Status) (t : option string)
  : UploadedFile :=
  {| id := i; file := png n; preview := "data:image/png;base64,AAAA";
     status := s; extractedText := t |}.

(** An engine that reads [hello] on every image. *)
Definition hello : OcrService.Pipeline :=
  fun _ => Some {| OcrService.generated_text := Some "hello" |}.

(** A browser in which the model loads, every image decodes and the
    canvas works. *)
Definition healthy : OcrService.Env :=
  {| OcrService.pipeline := fun _ => Some hello;
     OcrService.getContext := true;
     OcrService.toDataURL := fun img _ _ => OcrService.pixels img;
     OcrService.loadImage := fun f =>
       Some {| OcrService.width := 640; OcrService.height := 480;
               OcrService.pixels := name f |} |}.

(** The same browser, except that the model never loads. *)
Definition offline : OcrService.Env :=
  {| OcrService.pipeline := fun _ => None;
     OcrService.getContext := true;
     OcrService.toDataURL := OcrService.toDataURL healthy;
     OcrService.loadImage := OcrService.loadImage healthy |}.

(** An engine that rejects the image of [broken.png] and reads [hello]
    on every other one. *)
Definition picky : OcrService.Pipeline :=
  fun imageData =>
    if String.eqb imageData "broken.png" then None
    else Some {| OcrService.generated_text := Some "hello" |}.

(** The same browser with that engine. *)
Definition one_broken : OcrService.Env :=
  {| OcrService.pipeline := fun _ => Some picky;
     OcrService.getContext := true;
     OcrService.toDataURL := OcrService.toDataURL healthy;
     OcrService.loadImage := OcrService.loadImage healthy |}.

(** A [load] event at clock reading 1700000000000 ms. *)
Definition load (i : nat) : LoadEvent :=
  {| index := i; now := 1700000000000; result := "data:image/png;base64,AAAA" |}.

Definition photo : OcrService.HTMLImageElement :=
  {| OcrService.width := 2048; OcrService.height := 1536;
     OcrService.pixels := "scan" |}.

Definition loaded : OcrService.Module_ :=
  {| OcrService.ocrPipeline := Some hello; OcrService.created := 1;
     OcrService.inflight := []; OcrService.assigned := 1;
     OcrService.inferences := 0 |}.

(** Three files waiting in the queue, the second of which is
    [broken.png]. *)
Definition waiting : list UploadedFile :=
  [record "1700000000000-0" "a.png" pending None;
   record "1700000000000-1" "broken.png" pending None;
   record "1700000000000-2" "c.png" pending None].

Definition session (fs : list UploadedFile) : DocumentConverter.State :=
  DocumentConverter.handleFilesAdded fs DocumentConverter.initial.

End Examples.

(** ** Statements of the spec as they are worded, where the code departs *)

(** The claim C4 as it is worded: one section per file in status
    [completed]. *)
Definition one_section_per_completed_file : Prop :=
  forall (st : DocumentPreview.State) (queue : list ImageUpload.UploadedFile),
    PdfGenerator.sections (DocumentPreview.options st queue)
    = Spec.assemble Spec.is_completed (DocumentPreview.getSectionContent st) 0 queue.

(** The claim C5 as it is worded: any overlay entry replaces the stored
    text. *)
Definition overlay_entry_always_wins : Prop :=
  forall (st : DocumentPreview.State) (f : ImageUpload.UploadedFile),
    ImageUpload.status f = ImageUpload.completed ->
    DocumentPreview.getSectionContent st f
    = Spec.body (DocumentPreview.editedSections st) f.

(** The claim C1 as it is worded: whatever the calls and however they
    overlap, [pipeline(...)] is called at most once. *)
Definition pipeline_created_at_most_once : Prop :=
  forall (env : OcrService.Env) (es : list OcrService.Event),
    (OcrService.created (OcrService.exec env es OcrService.initial) <= 1)%nat.

(** The three phases a module state goes through when calls do not
    overlap: nothing started, one creation in flight, pipeline set. *)
Inductive phase : OcrService.Module_ -> Prop :=
| idle m :
    OcrService.ocrPipeline m = None -> OcrService.inflight m = [] ->
    OcrService.assigned m = 0%nat -> phase m
| loading m k :
    OcrService.ocrPipeline m = None -> OcrService.inflight m = [k] ->
    OcrService.assigned m = 0%nat -> OcrService.created m = S k -> phase m
| ready m :
    is_Some (OcrService.ocrPipeline m) -> OcrService.inflight m = [] ->
    OcrService.assigned m = 1%nat -> phase m.

(** The same phases when no creation fails, with the number of calls of
    [pipeline(...)] so far; the flag tells whether any call of the adapter
    has been made. *)
Inductive progress : bool -> OcrService.Module_ -> Prop :=
| not_started m :
    OcrService.ocrPipeline m = None -> OcrService.inflight m = [] ->
    OcrService.created m = 0%nat -> progress false m
| started c m :
    OcrService.ocrPipeline m = None -> OcrService.inflight m = [0%nat] ->
    OcrService.created m = 1%nat -> progress c m
| finished c m :
    is_Some (OcrService.ocrPipeline m) -> OcrService.inflight m = [] ->
    OcrService.created m = 1%nat -> progress c m.

(** What the two [setFiles] of one iteration of the loop do to a record
    that carries the id of the file being processed. *)
Definition verdict (r : string + OcrService.OCRResult) (f : ImageUpload.UploadedFile)
  : ImageUpload.UploadedFile :=
  match r with
  | inr result =>
      DocumentConverter.as_completed (OcrService.text result)
        (DocumentConverter.as_processing f)
  | inl _ => DocumentConverter.as_error (DocumentConverter.as_processing f)
  end.

(** ** [pdfGenerator.ts]: what the two renderers produce *)

Module Renderers.
Import PdfGenerator.

(** The line feed of the template literals. *)
Definition nl : string := String (ascii_of_N 10) EmptyString.

(** White space and line terminators among the code units below 256:
    what [trim] strips. *)
Definition is_space (c : ascii) : bool :=
  ((9 <=? JS.code c) && (JS.code c <=? 13) || (JS.code c =? 32) || (JS.code c =? 160))%N.

(** [s.trim()] is the empty string, that is, [s.trim()] is falsy. *)
Fixpoint blank (s : string) : bool :=
  match s with
  | EmptyString => true
  | String c s' => is_space c && blank s'
  end.

(** [c.repeat(n)] for a one-character string. *)
Fixpoint repeat_char (c : ascii) (n : nat) : string :=
  match n with
  | O => EmptyString
  | S n' => String c (repeat_char c n')
  end.

(** *** [generateTextFile] *)

(** Lines 107-120; [today] is [new Date().toLocaleDateString()]. *)
Definition text_header (today : string) (options : DocumentOptions) : string :=
  let content := "" in
  let content :=
    if JS.truthy (doc_title options) then
      let t := default "" (doc_title options) in
      content +:+ (t +:+ nl) +:+ (repeat_char "=" (String.length t) +:+ nl +:+ nl)
    else content in
  let content :=
    if JS.truthy (author options)
    then content +:+ ("Author: " +:+ default "" (author options) +:+ nl)
    else content in
  let content :=
    if JS.truthy (subject options)
    then content +:+ ("Subject: " +:+ default "" (subject options) +:+ nl)
    else content in
  content +:+ ("Generated: " +:+ today +:+ nl +:+ nl).

(** The callback of [options.sections.forEach] (lines 122-135), [n] being
    [options.sections.length]. *)
Definition text_section (n index : nat) (section : DocumentSection) (content : string)
  : string :=
  let content :=
    if JS.truthy (title section) then
      let t := default "" (title section) in
      content +:+ (t +:+ nl) +:+ (repeat_char "-" (String.length t) +:+ nl +:+ nl)
    else content in
  let content :=
    if negb (blank (PdfGenerator.content section))
    then content +:+ (PdfGenerator.content section +:+ nl +:+ nl)
    else content in
  if (index <? n - 1)%nat then content +:+ ("---" +:+ nl +:+ nl) else content.

Fixpoint text_sections (n index : nat) (rest : list DocumentSection) (content : string)
  : string :=
  match rest with
  | [] => content
  | section :: rest' => text_sections n (S index) rest' (text_section n index section content)
  end.

(** [generateTextFile(options)]: the text put in the blob, and the name of
    the download. *)
Definition generateTextFile (today : string) (options : DocumentOptions)
  : string * string :=
  (text_sections (length (sections options)) 0 (sections options)
     (text_header today options),
   generateTextFile_filename options).

(** *** [generatePDF] *)

(** The calls made on the jsPDF document, in order. Vertical positions are
    sums of integers; the horizontal end of a rule is a value of the
    page geometry. *)
Inductive Op : Type :=
| setFontSize (size : nat)
| setFont (family style : string)
| text_lines (lines : list string) (x y : nat)
| text_string (s : string) (x y : nat)
| addPage
| setDrawColor (r g b : nat)
| line (x1 : nat) (y1 : nat) (x2 : Q) (y2 : nat)
| save (filename : string).

(** What the layout reads from the document: the values of the expressions
    [pageHeight - 60], [pageHeight - margin], [pageWidth - margin] and
    [pageWidth - (margin * 2)] (each one a double, hence a rational), and
    [doc.splitTextToSize(text, maxWidth)], which depends on the font size
    and style in force. *)
Record Page : Type := mkPage {
  sectionLimit : Q;
  contentLimit : Q;
  ruleEnd : Q;
  maxWidth : Q;
  splitTextToSize : nat -> string -> string -> Q -> list string
}.

Definition margin : nat := 20.

(** [a > b] for an integer [a] and a double [b]. *)
Definition exceeds (a : nat) (b : Q) : bool :=
  negb (Qle_bool (inject_Z (Z.of_nat a)) b).

(** Lines 25-32: the calls made and the new [currentY]. *)
Definition pdf_title (pg : Page) (options : DocumentOptions) (currentY : nat)
  : list Op * nat :=
  if JS.truthy (doc_title options) then
    let titleLines :=
      splitTextToSize pg 20 "bold" (default "" (doc_title options)) (maxWidth pg) in
    ([setFontSize 20; setFont "helvetica" "bold"; text_lines titleLines margin currentY],
     currentY + (length titleLines * 12 + 10))%nat
  else ([], currentY).

(** Lines 34-51. *)
Definition pdf_metadata (today : string) (options : DocumentOptions) (currentY : nat)
  : list Op * nat :=
  if JS.truthy (author options) || JS.truthy (subject options) then
    let ops := [setFontSize 10; setFont "helvetica" "normal"] in
    let '(ops, currentY) :=
      if JS.truthy (author options)
      then (ops ++ [text_string ("Author: " +:+ default "" (author options)) margin currentY],
            currentY + 8)%nat
      else (ops, currentY) in
    let '(ops, currentY) :=
      if JS.truthy (subject options)
      then (ops ++ [text_string ("Subject: " +:+ default "" (subject options)) margin currentY],
            currentY + 8)%nat
      else (ops, currentY) in
    (ops ++ [text_string ("Generated: " +:+ today) margin currentY], currentY + 20)%nat
  else ([], currentY).

(** The callback of [options.sections.forEach] (lines 54-94). *)
Definition pdf_section (pg : Page) (n index : nat) (section : DocumentSection)
    (currentY : nat) : list Op * nat :=
  let '(ops, currentY) :=
    if exceeds currentY (sectionLimit pg) then ([addPage], margin) else ([], currentY) in
  let '(ops, currentY) :=
    if JS.truthy (title section) then
      let titleLines :=
        splitTextToSize pg 14 "bold" (default "" (title section)) (maxWidth pg) in
      (ops ++ [setFontSize 14; setFont "helvetica" "bold";
               text_lines titleLines margin currentY],
       currentY + (length titleLines * 8 + 5))%nat
    else (ops, currentY) in
  let '(ops, currentY) :=
    if negb (blank (content section)) then
      let contentLines :=
        splitTextToSize pg 11 "normal" (content section) (maxWidth pg) in
      let contentHeight := (length contentLines * 6)%nat in
      let '(ops', currentY) :=
        if exceeds (currentY + contentHeight) (contentLimit pg)
        then ([addPage], margin) else ([], currentY) in
      (ops ++ [setFontSize 11; setFont "helvetica" "normal"] ++ ops'
           ++ [text_lines contentLines margin currentY],
       currentY + (contentHeight + 10))%nat
    else (ops, currentY) in
  if (index <? n - 1)%nat then
    (ops ++ [setDrawColor 200 200 200; line margin currentY (ruleEnd pg) currentY],
     currentY + 15)%nat
  else (ops, currentY).

Fixpoint pdf_sections (pg : Page) (n index : nat) (rest : list DocumentSection)
    (currentY : nat) : list Op :=
  match rest with
  | [] => []
  | section :: rest' =>
      let '(ops, currentY) := pdf_section pg n index section currentY in
      ops ++ pdf_sections pg n (S index) rest' currentY
  end.

(** [generatePDF(options)]: every call made on the document. *)
Definition generatePDF (pg : Page) (today : string) (options : DocumentOptions)
  : list Op :=
  let '(ops1, currentY) := pdf_title pg options margin in
  let '(ops2, currentY) := pdf_metadata today options currentY in
  ops1 ++ ops2
    ++ pdf_sections pg (length (sections options)) 0 (sections options) currentY
    ++ [save (generatePDF_filename options)].

End Renderers.

(** ** [DocumentConverter.tsx]: the status panel *)

Module Dashboard.

(** The object returned by [getStatusCounts]. *)
Record StatusCounts : Type := mkStatusCounts {
  pending : nat;
  processing : nat;
  completed : nat;
  error : nat
}.

Definition count (s : ImageUpload.Status) (files : list ImageUpload.UploadedFile) : nat :=
  length (List.filter (fun f => ImageUpload.Status_eqb (ImageUpload.status f) s) files).

(** Lines 283-290. *)
Definition getStatusCounts (files : list ImageUpload.UploadedFile) : StatusCounts :=
  {| pending := count ImageUpload.pending files;
     processing := count ImageUpload.processing files;
     completed := count ImageUpload.completed files;
     error := count ImageUpload.error files |}.

End Dashboard.

(** ** Observations used in the statements *)

(** What recognition of a file yields once the pipeline [run] is in place:
    the result of [loadImage] followed by [extractTextFromImage]. *)
Definition outcome (env : OcrService.Env) (run : OcrService.Pipeline)
    (f : ImageUpload.File) : string + OcrService.OCRResult :=
  match OcrService.loadImage env f with
  | None => inl "error"
  | Some img =>
      if OcrService.getContext env then
        match run (imageData env img) with
        | Some out =>
            inr {| OcrService.text := default "" (OcrService.generated_text out);
                   OcrService.confidence := 0.8 |}
        | None => inl OcrService.failure
        end
      else inl OcrService.failure
  end.

(** A text drawn on a page of the PDF: [doc.text] draws at the font size
    last set and on the page last added. *)
Record Drawn : Type := mkDrawn {
  page : nat;
  size : nat;
  top : nat;
  lines : list string
}.

Fixpoint drawn (size page : nat) (ops : list Renderers.Op) : list Drawn :=
  match ops with
  | [] => []
  | Renderers.setFontSize s :: rest => drawn s page rest
  | Renderers.addPage :: rest => drawn size (S page) rest
  | Renderers.text_lines ls _ y :: rest =>
      {| page := page; size := size; top := y; lines := ls |} :: drawn size page rest
  | Renderers.text_string s _ y :: rest =>
      {| page := page; size := size; top := y; lines := [s] |} :: drawn size page rest
  | _ :: rest => drawn size page rest
  end.

Definition is_rule (op : Renderers.Op) : bool :=
  match op with Renderers.line _ _ _ _ => true | _ => false end.

Definition is_page_break (op : Renderers.Op) : bool :=
  match op with Renderers.addPage => true | _ => false end.

(** [needle] occurs in [s]. *)
Definition contains (s needle : string) : Prop :=
  exists pre post, s = (pre +:+ needle +:+ post).

(** The toast [onDrop] raises for a file it rejects. *)
Definition rejection (f : ImageUpload.File) : toast :=
  if JS.startsWith "image/" (ImageUpload.type f)
  then toast_error (ImageUpload.name f +:+ " is too large (max 10MB)")
  else toast_error (ImageUpload.name f +:+ " is not a valid image file").

Definition rejected (f : ImageUpload.File) : bool := negb (Spec.accepted f).

(** A record after the recognition of its file came out as [o]. *)
Definition after_recognition (o : string + OcrService.OCRResult)
    (f : ImageUpload.UploadedFile) : ImageUpload.UploadedFile :=
  match o with
  | inr r =>
      {| ImageUpload.id := ImageUpload.id f; ImageUpload.file := ImageUpload.file f;
         ImageUpload.preview := ImageUpload.preview f;
         ImageUpload.status := ImageUpload.completed;
         ImageUpload.extractedText := Some (OcrService.text r) |}
  | inl _ =>
      {| ImageUpload.id := ImageUpload.id f; ImageUpload.file := ImageUpload.file f;
         ImageUpload.preview := ImageUpload.preview f;
         ImageUpload.status := ImageUpload.error;
         ImageUpload.extractedText := ImageUpload.extractedText f |}
  end.

(** The toast an iteration of the loop raises for a file. *)
Definition report (o : string + OcrService.OCRResult) (f : ImageUpload.UploadedFile)
  : toast :=
  match o with
  | inr _ => toast_success ("Extracted text from " +:+ ImageUpload.name (ImageUpload.file f))
  | inl _ => toast_error ("Failed to process " +:+ ImageUpload.name (ImageUpload.file f))
  end.

(** The record carries the id of one of the files in [rest]. *)
Definition hit (rest : list ImageUpload.UploadedFile) (f : ImageUpload.UploadedFile)
  : bool :=
  existsb (fun t => String.eqb (ImageUpload.id f) (ImageUpload.id t)) rest.

(** The component's flag agrees with the module: [ocrInitialized] is only
    set when [ocrPipeline] is. *)
Definition consistent (st : DocumentConverter.State) : Prop :=
  DocumentConverter.ocrInitialized st = true ->
  is_Some (OcrService.ocrPipeline (DocumentConverter.ocr st)).

(** The state of a run after its first two [set] calls. *)
Definition begun (st : DocumentConverter.State) : DocumentConverter.State :=
  DocumentConverter.setProcessingProgress 0 (DocumentConverter.setIsProcessing true st).

(** A character a derived file name may contain. *)
Definition safe_char (c : ascii) : bool :=
  JS.is_lower c || JS.is_digit c || Ascii.eqb c "_".

Fixpoint all_chars (p : ascii -> bool) (s : string) : bool :=
  match s with
  | EmptyString => true
  | String c s' => p c && all_chars p s'
  end.

(** The font size and the page in force after a sequence of calls. *)
Fixpoint size_after (size : nat) (ops : list Renderers.Op) : nat :=
  match ops with
  | [] => size
  | Renderers.setFontSize s :: rest => size_after s rest
  | _ :: rest => size_after size rest
  end.

Fixpoint page_after (page : nat) (ops : list Renderers.Op) : nat :=
  match ops with
  | [] => page
  | Renderers.addPage :: rest => page_after (S page) rest
  | _ :: rest => page_after page rest
  end.

Definition is_save (op : Renderers.Op) : bool :=
  match op with Renderers.save _ => true | _ => false end.

(** Where a drawn text may stand: not above the top margin; a section's
    body (size 11, 6 units per line) either ends above the bottom margin
    or starts a page; a section's title (size 14) either starts above the
    threshold of line 56 or starts a page. *)
Definition well_placed (pg : Renderers.Page) (d : Drawn) : Prop :=
  (Renderers.margin <= top d)%nat
  /\ (size d = 11%nat ->
      Renderers.exceeds (top d + length (lines d) * 6) (Renderers.contentLimit pg) = false
      \/ top d = Renderers.margin)
  /\ (size d = 14%nat ->
      Renderers.exceeds (top d) (Renderers.sectionLimit pg) = false
      \/ top d = Renderers.margin).

(** The text was drawn at the size of a section's body. *)
Definition body_lines (d : Drawn) : bool := (size d =? 11)%nat.

(** The sections whose content [generatePDF] and [generateTextFile] print. *)
Definition printed (section : PdfGenerator.DocumentSection) : bool :=
  negb (Renderers.blank (PdfGenerator.content section)).

(** What both renderers do to one character of the title. *)
Definition name_char (c : ascii) : ascii :=
  if JS.in_class_az09_i c then JS.lower_char c else "_"%char.

(** ** More concrete inputs *)

Module Samples.
Import ImageUpload.

(** A text file and an image of 11 MiB among two images. *)
Definition mixed : list File :=
  [Examples.png "a.png";
   {| name := "notes.txt"; type := "text/plain"; size := 12 |};
   {| name := "huge.png"; type := "image/png"; size := 11 * 1024 * 1024 |};
   Examples.png "b.png"].

(** The second reader finishes first. *)
Definition both_loads : list LoadEvent :=
  [{| index := 1; now := 1700000000007; result := "data:image/png;base64,BBBB" |};
   {| index := 0; now := 1700000000009; result := "data:image/png;base64,AAAA" |}].

(** A browser in which the first creation of the pipeline fails and the
    later ones succeed. *)
Definition flaky : OcrService.Env :=
  {| OcrService.pipeline := fun k => if (k =? 0)%nat then None else Some Examples.hello;
     OcrService.getContext := true;
     OcrService.toDataURL := OcrService.toDataURL Examples.healthy;
     OcrService.loadImage := OcrService.loadImage Examples.healthy |}.

Definition report_of (body : string) : PdfGenerator.DocumentOptions :=
  {| PdfGenerator.doc_title := Some "My Report!";
     PdfGenerator.author := None;
     PdfGenerator.subject := Some "Document extracted from images using OCR";
     PdfGenerator.sections :=
       [{| PdfGenerator.title := Some "Section 1 - a.png";
           PdfGenerator.content := body;
           PdfGenerator.imageUrl := None |}] |}.

Definition done_files : list UploadedFile :=
  [Examples.record "1700000000000-0" "a.png" completed (Some "alpha");
   Examples.record "1700000000000-1" "b.png" pending None].

End Samples.
(** * Properties *)

(** ** Intake *)

Section Intake.
Import ImageUpload.

Lemma check_accepted (f : File) : fst (check f) = Spec.accepted f.
Proof.
  unfold check, Spec.accepted.
  destruct (JS.startsWith "image/" (type f)); simpl; [|reflexivity].
  rewrite N.leb_antisym. by destruct (10 * 1024 * 1024 <? size f)%N.
Qed.

Lemma check_toasts (f : File) :
  length (snd (check f)) = (if Spec.accepted f then 0 else 1)%nat
  /\ Forall (fun t => is_toast_error t = true) (snd (check f)).
Proof.
  rewrite <- check_accepted. unfold check.
  destruct (JS.startsWith "image/" (type f)); simpl.
  - destruct (10 * 1024 * 1024 <? size f)%N; simpl; split; auto.
  - split; auto.
Qed.

(** The validation pass keeps exactly the image files of at most 10 MiB,
    in order, and raises one error toast for each of the others. *)
Lemma validFiles_spec (acceptedFiles : list File) :
  fst (validFiles acceptedFiles) = List.filter Spec.accepted acceptedFiles
  /\ length (snd (validFiles acceptedFiles))
     = length (List.filter (fun f => negb (Spec.accepted f)) acceptedFiles)
  /\ Forall (fun t => is_toast_error t = true) (snd (validFiles acceptedFiles))
  /\ (length (List.filter Spec.accepted acceptedFiles)
      + length (List.filter (fun f => negb (Spec.accepted f)) acceptedFiles)
      = length acceptedFiles)%nat.
Proof.
  induction acceptedFiles as [|f l (IH1 & IH2 & IH3 & IH4)]; simpl.
  - repeat split; constructor.
  - pose proof (check_accepted f) as Hc. destruct (check_toasts f) as [Hn Hall].
    destruct (check f) as [ok ts]. destruct (validFiles l) as [vs ts'].
    simpl in *. subst ok. rewrite length_app, Hn, IH2.
    split; [|split; [|split]].
    + destruct (Spec.accepted f); by rewrite IH1.
    + by destruct (Spec.accepted f).
    + by apply Forall_app.
    + destruct (Spec.accepted f); simpl; lia.
Qed.

Lemma fold_onload (valid : list File) (loads : list LoadEvent) (b : Batch) :
  (forall ev, ev ∈ loads -> is_Some (valid !! index ev)) ->
  (length (uploadedFiles b) + length loads = length valid)%nat ->
  loads <> [] ->
  let b' := fold_left (fun b ev => onload valid ev b) loads b in
  added b' = added b ++ uploadedFiles b ++ records valid loads
  /\ toasts b'
     = toasts b ++ [toast_success (pretty (length valid)
                                   ++ " image(s) uploaded successfully!")].
Proof.
  revert b. induction loads as [|ev rest IH]; intros b Hidx Hlen Hne; [done|].
  simpl. destruct (Hidx ev) as [f Hf]; [by left|].
  unfold records. simpl. rewrite Hf. simpl. fold (records valid rest).
  destruct rest as [|ev' rest'].
  - simpl in *. unfold onload. rewrite Hf, length_app. simpl.
    replace (length (uploadedFiles b) + 1 =? length valid)%nat with true
      by (symmetry; apply Nat.eqb_eq; lia).
    simpl. by rewrite ?app_nil_r, <- ?app_assoc.
  - set (b1 := onload valid ev b).
    assert (Hb1 : uploadedFiles b1 = uploadedFiles b ++ [uploadedFile f ev]
                  /\ added b1 = added b /\ toasts b1 = toasts b).
    { subst b1. unfold onload. rewrite Hf, length_app. simpl.
      replace (length (uploadedFiles b) + 1 =? length valid)%nat with false
        by (symmetry; apply Nat.eqb_neq; simpl in Hlen; lia).
      done. }
    destruct Hb1 as (Hu & Ha & Ht).
    destruct (IH b1) as [IHa IHt].
    + intros x Hx. apply Hidx. by right.
    + rewrite Hu, length_app. simpl in *. lia.
    + done.
    + rewrite IHa, IHt, Hu, Ha, Ht. by rewrite <- !app_assoc.
Qed.

Lemma omap_cons {A B} (g : A -> option B) (x : A) (l : list A) :
  omap g (x :: l) = match g x with Some y => y :: omap g l | None => omap g l end.
Proof. reflexivity. Qed.

Lemma omap_lookup_shift {A} (x : A) (l : list A) (s : list nat) :
  omap (fun i => (x :: l) !! i) (S <$> s) = omap (fun i => l !! i) s.
Proof.
  induction s as [|i s IH]; [done|].
  rewrite fmap_cons, !omap_cons, IH. reflexivity.
Qed.

Lemma omap_lookup_seq {A} (l : list A) :
  omap (fun i => l !! i) (seq 0 (length l)) = l.
Proof.
  induction l as [|x l IH]; [done|].
  change (seq 0 (length (x :: l))) with (0%nat :: seq 1 (length l)).
  rewrite <- fmap_S_seq, omap_cons, omap_lookup_shift, IH. reflexivity.
Qed.

Lemma records_files (valid : list File) (loads : list LoadEvent) :
  file <$> records valid loads = omap (fun i => valid !! i) (index <$> loads).
Proof.
  unfold records. induction loads as [|ev rest IH]; [done|].
  rewrite fmap_cons, !omap_cons.
  destruct (valid !! index ev) as [f|].
  - change ((fun f0 => uploadedFile f0 ev) <$> Some f) with (Some (uploadedFile f ev)).
    cbv iota. rewrite fmap_cons, IH. reflexivity.
  - exact IH.
Qed.

Lemma records_pending (valid : list File) (loads : list LoadEvent) :
  Forall (fun r => status r = pending /\ extractedText r = None
                   /\ exists ev, ev ∈ loads /\ id r = id (uploadedFile (file r) ev))
         (records valid loads).
Proof.
  apply Forall_forall. intros r Hr. unfold records in Hr.
  apply list_elem_of_omap in Hr as (ev & Hev & Hr).
  destruct (valid !! index ev) as [f|]; [|done].
  simpl in Hr. injection Hr as <-. eauto.
Qed.

(** When every reader of the batch delivers its [load] event, the files
    handed to [onFilesAdded] are the accepted files, each exactly once
    and each as a [pending] record without text; a rejected file is never
    among them. *)
Lemma onDrop_when_all_loads_arrive (acceptedFiles : list File) (loads : list LoadEvent) :
  index <$> loads ≡ₚ seq 0 (length (List.filter Spec.accepted acceptedFiles)) ->
  let newFiles := fst (onDrop acceptedFiles loads) in
  file <$> newFiles ≡ₚ List.filter Spec.accepted acceptedFiles
  /\ Forall (fun r => status r = pending /\ extractedText r = None) newFiles
  /\ (forall r, r ∈ newFiles -> Spec.accepted (file r) = true).
Proof.
  intros Hperm newFiles. subst newFiles. unfold onDrop.
  destruct (validFiles_spec acceptedFiles) as (Hv & _).
  destruct (validFiles acceptedFiles) as [valid ts]. simpl in Hv. subst valid.
  set (valid := List.filter Spec.accepted acceptedFiles) in *.
  assert (Hfiles : file <$> records valid loads ≡ₚ valid).
  { rewrite records_files, Hperm. by rewrite omap_lookup_seq. }
  assert (Hacc : forall r, r ∈ records valid loads -> Spec.accepted (file r) = true).
  { intros r Hr.
    assert (Hin : file r ∈ valid).
    { rewrite <- Hfiles. by apply list_elem_of_fmap_2. }
    apply list_elem_of_In, filter_In in Hin. tauto. }
  destruct (length valid =? 0)%nat eqn:Hz.
  - apply Nat.eqb_eq in Hz. destruct valid; [|done].
    simpl in *. repeat split; [done|constructor|].
    intros r Hr. by apply not_elem_of_nil in Hr.
  - apply Nat.eqb_neq in Hz.
    assert (Hlen : length loads = length valid).
    { rewrite <- (length_fmap index), Hperm. apply length_seq. }
    destruct (fold_onload valid loads
                {| uploadedFiles := []; added := []; toasts := ts |}) as [Ha _].
    + intros ev Hev. apply lookup_lt_is_Some.
      assert (Hi : index ev ∈ seq 0 (length valid)).
      { rewrite <- Hperm. by apply list_elem_of_fmap_2. }
      apply elem_of_seq in Hi. lia.
    + simpl. done.
    + intros ->. simpl in Hlen. lia.
    + simpl in *. rewrite Ha. split; [done|]. split; [|done].
      eapply Forall_impl; [apply records_pending|]. simpl. tauto.
Qed.

(** *** Ids inside one batch *)

Lemma pretty_N_go_no_dash (x : N) (s : string) :
  no_dash s = true -> no_dash (pretty_N_go x s) = true.
Proof.
  revert s. induction (N.lt_wf_0 x) as [x _ IH]; intros s Hs.
  assert (x = 0 \/ 0 < x)%N as [->|Hx] by lia.
  - by rewrite pretty_N_go_0.
  - rewrite pretty_N_go_step by done. apply IH; [by apply N.div_lt|].
    simpl. rewrite Hs, andb_true_r.
    unfold pretty_N_char. by repeat case_match.
Qed.

Lemma pretty_N_no_dash (x : N) : no_dash (pretty x) = true.
Proof.
  unfold pretty, pretty_N. case_decide; [done|]. by apply pretty_N_go_no_dash.
Qed.

(** A dash after a dash-free prefix splits a string in one way only. *)
Lemma split_at_dash (a a' b b' : string) :
  no_dash a = true -> no_dash a' = true ->
  (a ++ "-" ++ b)%string = (a' ++ "-" ++ b')%string -> a = a' /\ b = b'.
Proof.
  revert a'. induction a as [|c a IH]; intros [|c' a'] Ha Ha' Heq; simpl in *.
  - injection Heq as Heq. by subst.
  - injection Heq as Hc _. subst c'. by rewrite Ascii.eqb_refl in Ha'.
  - injection Heq as Hc _. subst c. by rewrite Ascii.eqb_refl in Ha.
  - injection Heq as Hc Heq. subst c'.
    apply andb_prop in Ha as [_ Ha]. apply andb_prop in Ha' as [_ Ha'].
    destruct (IH a' Ha Ha' Heq) as [Ha0 Hb0]. by subst.
Qed.

Lemma uploadedFile_id_inj (f f' : File) (ev ev' : LoadEvent) :
  id (uploadedFile f ev) = id (uploadedFile f' ev') ->
  now ev = now ev' /\ index ev = index ev'.
Proof.
  simpl. intros Heq.
  apply split_at_dash in Heq as [Hn Hi]; [|apply pretty_N_no_dash..].
  split; [by apply (inj pretty)|by apply (inj pretty)].
Qed.

(** The records of one batch, each of whose readers fires at most once,
    have pairwise distinct ids. *)
Lemma ids_distinct_within_batch (valid : list File) (loads : list LoadEvent) :
  NoDup (index <$> loads) -> NoDup (id <$> records valid loads).
Proof.
  unfold records. induction loads as [|ev rest IH]; intros Hnd; [constructor|].
  rewrite fmap_cons in Hnd. apply NoDup_cons in Hnd as [Hev Hnd].
  rewrite omap_cons. destruct (valid !! index ev) as [f|]; [|by apply IH].
  change ((fun f0 => uploadedFile f0 ev) <$> Some f) with (Some (uploadedFile f ev)).
  cbv iota. rewrite fmap_cons. apply NoDup_cons. split; [|by apply IH].
  intros Hin. apply list_elem_of_fmap in Hin as (r & Hid & Hr).
  apply list_elem_of_omap in Hr as (ev' & Hev' & Hr).
  destruct (valid !! index ev') as [f'|]; [|done].
  simpl in Hr. injection Hr as <-.
  apply uploadedFile_id_inj in Hid as [_ Hidx].
  apply Hev. rewrite Hidx. by apply list_elem_of_fmap_2.
Qed.

End Intake.

(** ** File names of the exports *)

Lemma base_name_cons (c : ascii) (t : string) :
  PdfGenerator.base_name (String c t)
  = String (JS.lower_char (if JS.in_class_az09_i c then c else "_"%char))
           (PdfGenerator.base_name t).
Proof. reflexivity. Qed.

(** On each of the 256 code units the regular expression and
    [toLowerCase] agree with the alphabet. *)
Lemma base_char_spec (c : ascii) :
  JS.lower_char (if JS.in_class_az09_i c then c else "_"%char) = Spec.base_char c.
Proof. destruct c as [[] [] [] [] [] [] [] []]; vm_compute; reflexivity. Qed.

Lemma base_name_spec (t : string) : PdfGenerator.base_name t = Spec.base_name t.
Proof.
  induction t as [|c t IH]; [reflexivity|].
  rewrite base_name_cons, base_char_spec, IH. reflexivity.
Qed.

Lemma truthy_Some (t : string) : JS.truthy (Some t) = negb (String.eqb t "").
Proof. reflexivity. Qed.

(** C9. Both renderers name their output after the title, every character
    that is not a letter or digit replaced by an underscore and the rest
    lower-cased, or [extracted_document] when no title is set; only the
    extension differs. The title [My Report!] gives [my_report_], and
    digits are kept: [Invoice 2024] gives [invoice_2024]. *)
Theorem export_file_name (options : PdfGenerator.DocumentOptions) :
  PdfGenerator.generatePDF_filename options
    = (Spec.file_base (PdfGenerator.doc_title options) ++ ".pdf")%string
  /\ PdfGenerator.generateTextFile_filename options
    = (Spec.file_base (PdfGenerator.doc_title options) ++ ".txt")%string
  /\ Spec.file_base (Some "My Report!") = "my_report_"
  /\ (let report :=
        PdfGenerator.mkOptions (Some "My Report!") (PdfGenerator.author options)
          (PdfGenerator.subject options) (PdfGenerator.sections options) in
      PdfGenerator.generatePDF_filename report = "my_report_.pdf"
      /\ PdfGenerator.generateTextFile_filename report = "my_report_.txt")
  /\ (let invoice :=
        PdfGenerator.mkOptions (Some "Invoice 2024") (PdfGenerator.author options)
          (PdfGenerator.subject options) (PdfGenerator.sections options) in
      PdfGenerator.generatePDF_filename invoice = "invoice_2024.pdf"
      /\ PdfGenerator.generateTextFile_filename invoice = "invoice_2024.txt")
  /\ (let untitled :=
        PdfGenerator.mkOptions None (PdfGenerator.author options)
          (PdfGenerator.subject options) (PdfGenerator.sections options) in
      PdfGenerator.generatePDF_filename untitled = "extracted_document.pdf"
      /\ PdfGenerator.generateTextFile_filename untitled = "extracted_document.txt").
Proof.
  unfold PdfGenerator.generatePDF_filename, PdfGenerator.generateTextFile_filename,
    Spec.file_base.
  split_and!; try reflexivity.
  - destruct (PdfGenerator.doc_title options) as [t|]; simpl; [|done].
    destruct (String.eqb t ""); simpl; by rewrite ?base_name_spec.
  - destruct (PdfGenerator.doc_title options) as [t|]; simpl; [|done].
    destruct (String.eqb t ""); simpl; by rewrite ?base_name_spec.
Qed.

(** ** The OCR adapter *)

Lemma or_empty_default (g : option string) :
  default "" (JS.or g (Some "")) = default "" g.
Proof.
  destruct g as [t|]; [|reflexivity].
  unfold JS.or. simpl. destruct (String.eqb_spec t ""); subst; reflexivity.
Qed.

(** With the pipeline in place and a working canvas, the adapter returns
    whenever the engine does. *)
Lemma extractTextFromImage_returns env img m run out :
  OcrService.ocrPipeline m = Some run ->
  OcrService.getContext env = true ->
  run (imageData env img) = Some out ->
  OcrService.extractTextFromImage env img m
  = (OcrService.infer m,
     inr {| OcrService.text := default "" (OcrService.generated_text out);
            OcrService.confidence := 0.8 |}).
Proof.
  intros Hp Hc Hr. unfold OcrService.extractTextFromImage, imageData in *.
  rewrite Hp, Hc. simpl.
  destruct (OcrService.resize img) as [w h]. simpl in Hr.
  rewrite Hp, Hr, or_empty_default. reflexivity.
Qed.

(** C10. Whenever [extractTextFromImage] returns a result, its confidence
    is the constant 0.8 and its text is the [generated_text] of what the
    engine answered for the image, or the empty string when the engine's
    answer carries none. *)
Theorem extractTextFromImage_result env img m m' r :
  OcrService.extractTextFromImage env img m = (m', inr r) ->
  OcrService.confidence r = 0.8%Q
  /\ exists run out,
       OcrService.ocrPipeline m' = Some run
       /\ run (imageData env img) = Some out
       /\ OcrService.text r = match OcrService.generated_text out with
                              | Some t => t
                              | None => ""
                              end.
Proof.
  unfold OcrService.extractTextFromImage, imageData.
  destruct (match OcrService.ocrPipeline m with
            | Some _ => (m, inr tt)
            | None => OcrService.initializeOCR env m
            end) as [m1 [[]|[]]]; [discriminate|].
  destruct (OcrService.getContext env); simpl; [|discriminate].
  destruct (OcrService.resize img) as [w h]; simpl.
  destruct (OcrService.ocrPipeline m1) as [run|] eqn:Hrun; [|discriminate].
  destruct (run (OcrService.toDataURL env img w h)) as [out|] eqn:Hout; [|discriminate].
  intros H. injection H as <- <-. simpl. split; [reflexivity|].
  exists run, out. rewrite or_empty_default.
  split; [exact Hrun|]. split; [exact Hout|].
  destruct (OcrService.generated_text out); reflexivity.
Qed.

Lemma extractTextFromImage_result_witness :
  OcrService.extractTextFromImage Examples.healthy Examples.photo Examples.loaded
  = (OcrService.infer Examples.loaded,
     inr {| OcrService.text := "hello"; OcrService.confidence := 0.8 |})
  /\ OcrService.confidence {| OcrService.text := "hello"; OcrService.confidence := 0.8 |}
     = 0.8%Q.
Proof.
  split; [reflexivity|].
  apply (extractTextFromImage_result Examples.healthy Examples.photo Examples.loaded
           (OcrService.infer Examples.loaded)
           {| OcrService.text := "hello"; OcrService.confidence := 0.8 |}).
  reflexivity.
Defined.

(** ** The document assembler *)

Lemma sections_from (st : DocumentPreview.State) (k : nat)
    (queue : list ImageUpload.UploadedFile) :
  imap (fun i => DocumentPreview.section st (k + i)) (DocumentPreview.completedFiles queue)
  = Spec.assemble Spec.has_text (DocumentPreview.getSectionContent st) k queue.
Proof.
  revert k. induction queue as [|f queue IH]; intros k; [reflexivity|].
  unfold DocumentPreview.completedFiles in *. simpl.
  fold (Spec.has_text f). destruct (Spec.has_text f); [|apply IH].
  simpl. f_equal.
  - unfold DocumentPreview.section. by rewrite Nat.add_0_r.
  - rewrite <- IH. apply imap_ext. intros i x _. simpl.
    by replace (k + S i)%nat with (S k + i)%nat by lia.
Qed.

(** A completed file whose extracted text is empty gets no section. *)
Lemma completed_file_without_text_has_no_section : ~ one_section_per_completed_file.
Proof.
  intros H.
  specialize (H DocumentPreview.initial
                [Examples.record "A" "a.png" ImageUpload.completed (Some "")]).
  vm_compute in H. discriminate H.
Qed.

(** C4 (amended). The assembled document has exactly one section per file
    that is in status [completed] with a non-empty extracted text, in queue
    order and numbered from 1, and none for any other file; for
    [A:completed, B:pending, C:completed] with texts for A and C these are
    the sections of A and C. *)
Theorem sections_of_completed_files (st : DocumentPreview.State)
    (queue : list ImageUpload.UploadedFile) :
  PdfGenerator.sections (DocumentPreview.options st queue)
  = Spec.assemble Spec.has_text (DocumentPreview.getSectionContent st) 0 queue
  /\ List.map PdfGenerator.title
       (PdfGenerator.sections
          (DocumentPreview.options DocumentPreview.initial
             [Examples.record "A" "a.png" ImageUpload.completed (Some "alpha");
              Examples.record "B" "b.png" ImageUpload.pending None;
              Examples.record "C" "c.png" ImageUpload.completed (Some "gamma")]))
     = [Some "Section 1 - a.png"; Some "Section 2 - c.png"].
Proof.
  split; [|reflexivity].
  unfold DocumentPreview.options. simpl.
  rewrite <- sections_from. apply imap_ext. reflexivity.
Qed.

Lemma getSectionContent_spec (st : DocumentPreview.State) (f : ImageUpload.UploadedFile) :
  DocumentPreview.getSectionContent st f
  = Spec.body_nonempty (DocumentPreview.editedSections st) f.
Proof.
  unfold DocumentPreview.getSectionContent, Spec.body_nonempty.
  destruct (DocumentPreview.editedSections st !! ImageUpload.id f) as [t|].
  - destruct (String.eqb_spec t "") as [->|Hne].
    + change (JS.or (Some "") (ImageUpload.extractedText f))
        with (ImageUpload.extractedText f).
      apply or_empty_default.
    + assert (Ht : JS.truthy (Some t) = true).
      { rewrite truthy_Some. by destruct (String.eqb_spec t ""). }
      unfold JS.or at 2. rewrite Ht. unfold JS.or. by rewrite Ht.
  - change (JS.or None (ImageUpload.extractedText f))
      with (ImageUpload.extractedText f).
    apply or_empty_default.
Qed.

Lemma map_content_imap {A} (g : nat -> A -> PdfGenerator.DocumentSection)
    (body : A -> string) (l : list A) :
  (forall i x, PdfGenerator.content (g i x) = body x) ->
  List.map PdfGenerator.content (imap g l) = List.map body l.
Proof.
  revert g. induction l as [|x l IH]; intros g Hg; [reflexivity|].
  simpl. rewrite Hg. f_equal. apply IH. intros i y. apply Hg.
Qed.

(** An overlay entry holding the empty string does not: the stored text
    comes back. *)
Lemma empty_overlay_entry_is_ignored : ~ overlay_entry_always_wins.
Proof.
  intros H.
  specialize (H (DocumentPreview.handleSectionEdit "A" "" DocumentPreview.initial)
                (Examples.record "A" "a.png" ImageUpload.completed (Some "original"))
                eq_refl).
  vm_compute in H. discriminate H.
Qed.

(** C5 (amended). The body of every assembled section is the overlay value
    for the file's id when that entry is present and not the empty string,
    and the file's stored extracted text otherwise; an edit of a section to
    a non-empty text is what the next export shows, and with overlay
    [{A: "edited text"}] over the stored text [original] the body for A is
    [edited text]. *)
Theorem section_body (st : DocumentPreview.State)
    (queue : list ImageUpload.UploadedFile) :
  List.map PdfGenerator.content (PdfGenerator.sections (DocumentPreview.options st queue))
  = List.map (Spec.body_nonempty (DocumentPreview.editedSections st))
      (DocumentPreview.completedFiles queue)
  /\ (forall (f : ImageUpload.UploadedFile) (newText : string),
        DocumentPreview.getSectionContent
          (DocumentPreview.handleSectionEdit (ImageUpload.id f) newText st) f
        = if String.eqb newText "" then default "" (ImageUpload.extractedText f)
          else newText)
  /\ DocumentPreview.getSectionContent
       (DocumentPreview.handleSectionEdit "A" "edited text" DocumentPreview.initial)
       (Examples.record "A" "a.png" ImageUpload.completed (Some "original"))
     = "edited text".
Proof.
  split; [|split; [|reflexivity]].
  - unfold DocumentPreview.options. simpl.
    apply map_content_imap. intros i f. apply getSectionContent_spec.
  - intros f newText. rewrite getSectionContent_spec.
    unfold Spec.body_nonempty, DocumentPreview.handleSectionEdit. simpl.
    by rewrite lookup_insert_eq.
Qed.

(** ** Initialization of the engine *)

(** Two calls that overlap both find [ocrPipeline] unset and both call
    [pipeline(...)]. *)
Lemma overlapping_calls_create_twice : ~ pipeline_created_at_most_once.
Proof.
  intros H.
  specialize (H Examples.healthy
                [OcrService.call_initializeOCR; OcrService.call_extractTextFromImage;
                 OcrService.settle 0; OcrService.settle 1]).
  vm_compute in H. lia.
Qed.

(** Once [ocrPipeline] is set, it stays set and no call creates another
    pipeline, whatever the interleaving. *)
Lemma set_pipeline_is_kept env es m :
  is_Some (OcrService.ocrPipeline m) ->
  is_Some (OcrService.ocrPipeline (OcrService.exec env es m))
  /\ OcrService.created (OcrService.exec env es m) = OcrService.created m.
Proof.
  revert m. induction es as [|e es IH]; intros m Hm; [done|].
  simpl. destruct Hm as [p Hp].
  assert (Hs : is_Some (OcrService.ocrPipeline (OcrService.step env m e))
               /\ OcrService.created (OcrService.step env m e) = OcrService.created m).
  { destruct e as [| |k]; simpl.
    - unfold OcrService.enter_initializeOCR. rewrite Hp. eauto.
    - unfold OcrService.enter_extractTextFromImage. rewrite Hp. eauto.
    - unfold OcrService.settled. case_bool_decide; [|eauto].
      destruct (OcrService.pipeline env k); simpl; eauto. }
  destruct Hs as [Hs Hc]. destruct (IH _ Hs) as [H1 H2]. split; [done|congruence].
Qed.

Lemma filter_self (k : nat) : List.filter (fun j => negb (j =? k)%nat) [k] = [].
Proof. simpl. by rewrite Nat.eqb_refl. Qed.

Lemma phase_step env m e :
  phase m ->
  (OcrService.is_call e = true -> OcrService.inflight m = []) ->
  phase (OcrService.step env m e).
Proof.
  intros Hph Hcall. destruct e as [| |k]; simpl.
  - specialize (Hcall eq_refl). unfold OcrService.enter_initializeOCR.
    destruct Hph as [m Hp Hi Ha|m k Hp Hi Ha Hc|m [p Hp] Hi Ha].
    + rewrite Hp. eapply loading; simpl; [done | by rewrite Hi | done | done].
    + rewrite Hi in Hcall. discriminate.
    + rewrite Hp. by apply ready.
  - specialize (Hcall eq_refl).
    unfold OcrService.enter_extractTextFromImage, OcrService.enter_initializeOCR.
    destruct Hph as [m Hp Hi Ha|m k Hp Hi Ha Hc|m [p Hp] Hi Ha].
    + rewrite Hp. eapply loading; simpl; [done | by rewrite Hi | done | done].
    + rewrite Hi in Hcall. discriminate.
    + rewrite Hp. by apply ready.
  - clear Hcall. unfold OcrService.settled.
    case_bool_decide as Hin; [|done].
    destruct Hph as [m Hp Hi Ha|m k' Hp Hi Ha Hc|m [p Hp] Hi Ha].
    + rewrite Hi in Hin. by apply not_elem_of_nil in Hin.
    + rewrite Hi in Hin. apply list_elem_of_singleton in Hin. subst k'.
      destruct (OcrService.pipeline env k).
      * apply ready; simpl; [eauto | by rewrite Hi, filter_self | by rewrite Ha].
      * apply idle; simpl; [done | by rewrite Hi, filter_self | done].
    + rewrite Hi in Hin. by apply not_elem_of_nil in Hin.
Qed.

Lemma phase_exec env es m :
  phase m -> OcrService.sequential env es m = true ->
  phase (OcrService.exec env es m).
Proof.
  revert m. induction es as [|e es IH]; intros m Hph Hseq; [done|].
  simpl in *. apply andb_prop in Hseq as [Hc Hseq].
  apply IH; [|done]. apply phase_step; [done|].
  intros He. rewrite He in Hc. by apply bool_decide_eq_true in Hc.
Qed.

Lemma progress_step env c m e :
  (forall k, is_Some (OcrService.pipeline env k)) ->
  progress c m ->
  (OcrService.is_call e = true -> OcrService.inflight m = []) ->
  progress (c || OcrService.is_call e) (OcrService.step env m e).
Proof.
  intros Hok Hpr Hcall.
  assert (Hkeep : OcrService.is_call e = false ->
                  progress c m -> progress (c || OcrService.is_call e) m).
  { intros ->. by rewrite orb_false_r. }
  destruct e as [| |k]; simpl.
  - specialize (Hcall eq_refl). unfold OcrService.enter_initializeOCR.
    destruct Hpr as [m Hp Hi Hc|c m Hp Hi Hc|c m [p Hp] Hi Hc].
    + rewrite Hp. apply started; simpl; [done | by rewrite Hi, Hc | by rewrite Hc].
    + rewrite Hi in Hcall. discriminate.
    + rewrite Hp. by apply finished.
  - specialize (Hcall eq_refl).
    unfold OcrService.enter_extractTextFromImage, OcrService.enter_initializeOCR.
    destruct Hpr as [m Hp Hi Hc|c m Hp Hi Hc|c m [p Hp] Hi Hc].
    + rewrite Hp. apply started; simpl; [done | by rewrite Hi, Hc | by rewrite Hc].
    + rewrite Hi in Hcall. discriminate.
    + rewrite Hp. by apply finished.
  - clear Hcall. unfold OcrService.settled.
    case_bool_decide as Hin; [|by apply Hkeep].
    rewrite orb_false_r.
    destruct Hpr as [m Hp Hi Hc|c m Hp Hi Hc|c m [p Hp] Hi Hc].
    + rewrite Hi in Hin. by apply not_elem_of_nil in Hin.
    + rewrite Hi in Hin. apply list_elem_of_singleton in Hin. subst k.
      destruct (Hok 0%nat) as [p ->].
      apply finished; simpl; [eauto | by rewrite Hi | done].
    + rewrite Hi in Hin. by apply not_elem_of_nil in Hin.
Qed.

Lemma progress_exec env c es m :
  (forall k, is_Some (OcrService.pipeline env k)) ->
  progress c m -> OcrService.sequential env es m = true ->
  progress (c || existsb OcrService.is_call es) (OcrService.exec env es m).
Proof.
  intros Hok. revert c m. induction es as [|e es IH]; intros c m Hpr Hseq.
  - simpl. by rewrite orb_false_r.
  - simpl in *. apply andb_prop in Hseq as [Hc Hseq].
    rewrite orb_assoc. apply IH; [|done]. apply progress_step; [done..|].
    intros He. rewrite He in Hc. by apply bool_decide_eq_true in Hc.
Qed.

(** C1 (amended). In any sequence of calls of [initializeOCR] and
    [extractTextFromImage] in which no call is made while an earlier
    initialization is still in progress, [ocrPipeline] is assigned at most
    once; if moreover no creation fails, [pipeline(...)] is called at most
    once, and exactly once as soon as any call is made. Once the pipeline
    is set, no later call creates another, overlapping or not. *)
Theorem pipeline_created_once_without_overlap env es :
  OcrService.sequential env es OcrService.initial = true ->
  (OcrService.assigned (OcrService.exec env es OcrService.initial) <= 1)%nat
  /\ ((forall k, is_Some (OcrService.pipeline env k)) ->
      (OcrService.created (OcrService.exec env es OcrService.initial) <= 1)%nat
      /\ (existsb OcrService.is_call es = true ->
          OcrService.created (OcrService.exec env es OcrService.initial) = 1%nat))
  /\ (forall m es',
        is_Some (OcrService.ocrPipeline m) ->
        OcrService.created (OcrService.exec env es' m) = OcrService.created m).
Proof.
  intros Hseq. split; [|split].
  - assert (Hph : phase (OcrService.exec env es OcrService.initial)).
    { apply phase_exec; [by apply idle|done]. }
    destruct Hph as [m _ _ Ha|m k _ _ Ha _|m _ _ Ha]; lia.
  - intros Hok.
    assert (Hpr : progress (false || existsb OcrService.is_call es)
                    (OcrService.exec env es OcrService.initial)).
    { apply progress_exec; [done|by apply not_started|done]. }
    simpl in Hpr. split.
    + inversion Hpr; lia.
    + intros Hcalls. rewrite Hcalls in Hpr. inversion Hpr; done.
  - intros m es' Hm. by apply set_pipeline_is_kept.
Qed.

Lemma pipeline_created_once_without_overlap_witness :
  OcrService.created
    (OcrService.exec Examples.healthy
       [OcrService.call_initializeOCR; OcrService.settle 0;
        OcrService.call_extractTextFromImage; OcrService.call_initializeOCR]
       OcrService.initial) = 1%nat.
Proof.
  apply (pipeline_created_once_without_overlap Examples.healthy
           [OcrService.call_initializeOCR; OcrService.settle 0;
            OcrService.call_extractTextFromImage; OcrService.call_initializeOCR]).
  - vm_compute. reflexivity.
  - intros k. simpl. eauto.
  - reflexivity.
Defined.

(** An awaited [initializeOCR] is the call followed by the settlement of
    the creation it started. *)
Lemma initializeOCR_as_events env m :
  OcrService.inflight m = [] ->
  fst (OcrService.initializeOCR env m)
  = OcrService.exec env
      [OcrService.call_initializeOCR; OcrService.settle (OcrService.created m)] m.
Proof.
  intros Hi. unfold OcrService.initializeOCR. simpl.
  unfold OcrService.enter_initializeOCR.
  destruct (OcrService.ocrPipeline m) eqn:Hp; [|reflexivity].
  simpl. unfold OcrService.settled. rewrite Hi.
  case_bool_decide as Hin; [by apply not_elem_of_nil in Hin|reflexivity].
Qed.

Lemma initializeOCR_inferences env m :
  OcrService.inferences (fst (OcrService.initializeOCR env m)) = OcrService.inferences m.
Proof.
  unfold OcrService.initializeOCR.
  destruct (OcrService.ocrPipeline m) eqn:Hp; [reflexivity|]. simpl.
  unfold OcrService.settled, OcrService.enter_initializeOCR. rewrite Hp.
  case_bool_decide; [|reflexivity].
  by destruct (OcrService.pipeline env (OcrService.created m)).
Qed.

(** ** The run orchestrator *)

Section Orchestrator.
Import ImageUpload DocumentConverter.

Variable env : OcrService.Env.

Lemma nonempty_length {A} (l : list A) : l <> [] -> (length l =? 0)%nat = false.
Proof. by destruct l. Qed.

(** What [ensure_initialized] leaves alone. *)
Lemma ensure_initialized_frame st :
  let st' := fst (ensure_initialized env st) in
  files st' = files st /\ attempts st' = attempts st
  /\ isProcessing st' = isProcessing st
  /\ OcrService.inferences (ocr st') = OcrService.inferences (ocr st).
Proof.
  unfold ensure_initialized.
  destruct (ocrInitialized st); simpl; [done|].
  pose proof (initializeOCR_inferences env (ocr st)) as Hinf.
  destruct (OcrService.initializeOCR env (ocr st)) as [m [[]|[]]]; simpl in *; done.
Qed.

Lemma ensure_initialized_fails st :
  snd (ensure_initialized env st) = inl tt ->
  ocrInitialized st = false
  /\ snd (OcrService.initializeOCR env (ocr st)) = inl tt
  /\ ocrInitialized (fst (ensure_initialized env st)) = false
  /\ toasts (fst (ensure_initialized env st))
     = toasts st ++ [toast_info "Initializing OCR engine..."].
Proof.
  unfold ensure_initialized.
  destruct (ocrInitialized st) eqn:Hi; simpl; [done|].
  destruct (OcrService.initializeOCR env (ocr st)) as [m [[]|[]]]; simpl; done.
Qed.

(** C3. When [initializeOCR] throws at the start of a run, the run stops
    there: the file collection is left exactly as it was, so every
    targeted file is still [pending] with the text it had (none), no file
    is handed to the adapter, and exactly one error is reported. *)
Theorem initialization_failure_aborts_run st :
  files st <> [] ->
  ocrInitialized st = false ->
  snd (OcrService.initializeOCR env (ocr st)) = inl tt ->
  let st' := processImages env st in
  files st' = files st
  /\ pendingFiles (files st') = pendingFiles (files st)
  /\ (forall f, f ∈ pendingFiles (files st) ->
        f ∈ files st' /\ status f = pending)
  /\ attempts st' = attempts st
  /\ OcrService.inferences (ocr st') = OcrService.inferences (ocr st)
  /\ toasts st' = toasts st ++ [toast_info "Initializing OCR engine...";
                                toast_error "Failed to process images"]
  /\ ocrInitialized st' = false
  /\ isProcessing st' = false.
Proof.
  intros Hne Hi Hfail st'. subst st'. unfold processImages.
  rewrite (nonempty_length _ Hne).
  set (st0 := setProcessingProgress 0 (setIsProcessing true st)).
  assert (Hinit : snd (ensure_initialized env st0) = inl tt).
  { unfold ensure_initialized. subst st0. simpl. rewrite Hi. simpl.
    destruct (OcrService.initializeOCR env (ocr st)) as [m [[]|[]]]; simpl in *; done. }
  destruct (ensure_initialized_frame st0) as (Hf & Ha & _ & Hinf).
  destruct (ensure_initialized_fails st0 Hinit) as (_ & _ & Ho & Ht).
  destruct (ensure_initialized env st0) as [st1 r]. simpl in *. subst r.
  simpl. rewrite Hf, Ha, Hinf, Ho, Ht. simpl.
  split; [done|]. split; [done|]. split.
  { intros f Hin. apply list_elem_of_In, filter_In in Hin as [Hin Hs].
    split; [by apply list_elem_of_In|]. by destruct (status f). }
  repeat split; try done. by rewrite <- app_assoc.
Qed.

(** *** The updates of the loop *)

Lemma verdict_id r f : id (verdict r f) = id f.
Proof. by destruct r. Qed.

Lemma verdict_not_pending r f : status (verdict r f) <> pending.
Proof. by destruct r. Qed.

Lemma iteration_files n i file st :
  files (iteration env n i file st)
  = List.map (fun f => if String.eqb (id f) (id file)
                       then verdict (snd (recognize env (ImageUpload.file file) (ocr st))) f
                       else f) (files st).
Proof.
  unfold iteration. simpl.
  destruct (recognize env (ImageUpload.file file) (ocr st)) as [m [e|r]]; simpl;
    unfold update; rewrite List.map_map; apply List.map_ext; intros f;
    destruct (String.eqb (id f) (id file)) eqn:Hid; simpl; rewrite ?Hid; reflexivity.
Qed.

Lemma iteration_attempts n i file st :
  attempts (iteration env n i file st) = attempts st ++ [ImageUpload.file file].
Proof.
  unfold iteration. simpl.
  by destruct (recognize env (ImageUpload.file file) (ocr st)) as [m [e|r]].
Qed.

Lemma iteration_toasts n i file st :
  toasts (iteration env n i file st)
  = toasts st ++
    [match snd (recognize env (ImageUpload.file file) (ocr st)) with
     | inr _ => toast_success ("Extracted text from " ++ name (ImageUpload.file file))
     | inl _ => toast_error ("Failed to process " ++ name (ImageUpload.file file))
     end].
Proof.
  unfold iteration. simpl.
  by destruct (recognize env (ImageUpload.file file) (ocr st)) as [m [e|r]].
Qed.

Lemma iteration_ids n i file st :
  List.map id (files (iteration env n i file st)) = List.map id (files st).
Proof.
  rewrite iteration_files, List.map_map. apply List.map_ext. intros f.
  destruct (String.eqb (id f) (id file)); [apply verdict_id|reflexivity].
Qed.

(** An iteration touches exactly the records that carry the id of its
    file. *)
Lemma iteration_lookup n i file st k :
  files (iteration env n i file st) !! k
  = (fun f => if String.eqb (id f) (id file)
              then verdict (snd (recognize env (ImageUpload.file file) (ocr st))) f
              else f) <$> files st !! k.
Proof. rewrite iteration_files. apply list_lookup_fmap. Qed.

Lemma loop_app n i pre post st :
  loop env n i (pre ++ post) st
  = loop env n (i + length pre) post (loop env n i pre st).
Proof.
  revert i st. induction pre as [|f pre IH]; intros i st; simpl.
  - by rewrite Nat.add_0_r.
  - rewrite IH. f_equal. lia.
Qed.

Lemma loop_ids n i rest st :
  List.map id (files (loop env n i rest st)) = List.map id (files st).
Proof.
  revert i st. induction rest as [|f rest IH]; intros i st; simpl; [done|].
  by rewrite IH, iteration_ids.
Qed.

Lemma loop_attempts n i rest st :
  attempts (loop env n i rest st) = attempts st ++ List.map ImageUpload.file rest.
Proof.
  revert i st. induction rest as [|f rest IH]; intros i st; simpl.
  - by rewrite app_nil_r.
  - by rewrite IH, iteration_attempts, <- app_assoc.
Qed.

(** A record whose id is not among the files still to be processed is
    not touched by the rest of the loop. *)
Lemma loop_lookup_other n i rest st k g :
  files st !! k = Some g ->
  (forall t, t ∈ rest -> id t <> id g) ->
  files (loop env n i rest st) !! k = Some g.
Proof.
  revert i st. induction rest as [|f rest IH]; intros i st Hk Hne; simpl; [done|].
  apply IH.
  - rewrite iteration_lookup, Hk. simpl.
    destruct (String.eqb_spec (id g) (id f)) as [Heq|_]; [|done].
    exfalso. apply (Hne f); [by left|done].
  - intros t Ht. apply Hne. by right.
Qed.

(** A record that is [pending] after the loop was in the collection
    before it, and its id is that of none of the files processed. *)
Lemma loop_pending n i rest st g :
  g ∈ files (loop env n i rest st) -> status g = pending ->
  g ∈ files st /\ forall t, t ∈ rest -> id t <> id g.
Proof.
  revert i st. induction rest as [|f rest IH]; intros i st Hin Hs; simpl in *.
  - split; [done|]. intros t Ht. by apply not_elem_of_nil in Ht.
  - destruct (IH _ _ Hin Hs) as [Hg Hrest].
    rewrite iteration_files in Hg. apply list_elem_of_In, in_map_iff in Hg.
    destruct Hg as (x & Hx & Hxin).
    destruct (String.eqb_spec (id x) (id f)) as [Heq|Hneq].
    + subst g. by apply verdict_not_pending in Hs.
    + subst x. split; [by apply list_elem_of_In|].
      intros t Ht. apply elem_of_cons in Ht as [->|Ht]; [congruence|by apply Hrest].
Qed.

Lemma pendingFiles_elem (fs : list UploadedFile) f :
  f ∈ pendingFiles fs <-> f ∈ fs /\ status f = pending.
Proof.
  unfold pendingFiles. rewrite !list_elem_of_In, filter_In.
  split; intros [H1 H2]; (split; [done|]); by destruct (status f).
Qed.

Lemma pendingFiles_nil (fs : list UploadedFile) :
  (forall f, f ∈ fs -> status f <> pending) -> pendingFiles fs = [].
Proof.
  intros H. destruct (pendingFiles fs) as [|f l] eqn:E; [done|].
  assert (Hf : f ∈ pendingFiles fs) by (rewrite E; by left).
  apply pendingFiles_elem in Hf as [Hf Hs]. by apply H in Hf.
Qed.

(** The loop over the pending files leaves none pending. *)
Lemma loop_leaves_nothing_pending n st :
  pendingFiles (files (loop env n 0 (pendingFiles (files st)) st)) = [].
Proof.
  apply pendingFiles_nil. intros g Hg Hs.
  destruct (loop_pending _ _ _ _ _ Hg Hs) as [Hin Hne].
  apply (Hne g); [|done]. by apply pendingFiles_elem.
Qed.

Lemma length_zero_nil {A} (l : list A) : (length l =? 0)%nat = true -> l = [].
Proof. by destruct l. Qed.

(** A run that gets past initialization leaves no file [pending]. *)
Lemma nothing_pending_after_run st :
  ocrInitialized (processImages env st) = true ->
  pendingFiles (files (processImages env st)) = [].
Proof.
  unfold processImages.
  destruct (length (files st) =? 0)%nat eqn:Hlen.
  { intros _. simpl. by rewrite (length_zero_nil _ Hlen). }
  set (st0 := setProcessingProgress 0 (setIsProcessing true st)).
  destruct (ensure_initialized_frame st0) as (Hf & _).
  pose proof (ensure_initialized_fails st0) as Hfail.
  destruct (ensure_initialized env st0) as [st1 [[]|[]]]; simpl in *.
  - destruct (Hfail eq_refl) as (_ & _ & Ho & _). congruence.
  - intros _. destruct (length (pendingFiles (files st)) =? 0)%nat eqn:Hp; simpl.
    + rewrite Hf. by apply length_zero_nil.
    + rewrite <- Hf. apply loop_leaves_nothing_pending.
Qed.

End Orchestrator.

Section Runs.
Import ImageUpload DocumentConverter.

Variable env : OcrService.Env.

Lemma pendingFiles_spec (fs : list UploadedFile) :
  pendingFiles fs = List.filter Spec.still_pending fs.
Proof.
  unfold pendingFiles. apply List.filter_ext. intros f.
  unfold Spec.still_pending. by destruct (status f).
Qed.

(** One call of the adapter makes at most one call of the engine. *)
Lemma recognize_inferences f m :
  OcrService.inferences (fst (recognize env f m)) <= S (OcrService.inferences m).
Proof.
  unfold recognize. destruct (OcrService.loadImage env f) as [img|]; simpl; [|lia].
  unfold OcrService.extractTextFromImage.
  assert (Hinit : forall p : OcrService.Module_ * (unit + unit),
            OcrService.inferences (fst p) = OcrService.inferences m ->
            OcrService.inferences
              (fst (let '(m1, init) := p in
                    match init with
                    | inl _ => (m1, inl OcrService.failure)
                    | inr _ =>
                        if negb (OcrService.getContext env)
                        then (m1, inl OcrService.failure)
                        else
                          let '(width, height) := OcrService.resize img in
                          let imageData := OcrService.toDataURL env img width height in
                          match OcrService.ocrPipeline m1 with
                          | None => (m1, inl OcrService.failure)
                          | Some run =>
                              match run imageData with
                              | None => (OcrService.infer m1, inl OcrService.failure)
                              | Some result =>
                                  (OcrService.infer m1,
                                   inr {| OcrService.text :=
                                            default "" (JS.or (OcrService.generated_text result)
                                                          (Some ""));
                                          OcrService.confidence := 0.8 |})
                              end
                          end
                    end))
            <= S (OcrService.inferences m)).
  { intros [m1 [[]|[]]] Hm; simpl in *; [lia|].
    destruct (negb (OcrService.getContext env)); simpl; [lia|].
    destruct (OcrService.resize img) as [w h].
    destruct (OcrService.ocrPipeline m1) as [run|]; simpl; [|lia].
    destruct (run _); simpl; lia. }
  destruct (OcrService.ocrPipeline m).
  - exact (Hinit (m, inr tt) eq_refl).
  - exact (Hinit (OcrService.initializeOCR env m) (initializeOCR_inferences env m)).
Qed.

Lemma iteration_inferences n i f st :
  OcrService.inferences (ocr (iteration env n i f st))
  <= S (OcrService.inferences (ocr st)).
Proof.
  unfold iteration.
  pose proof (recognize_inferences (ImageUpload.file f)
                (ocr (attempt (ImageUpload.file f)
                        (setFiles (update (id f) as_processing) st)))) as H.
  destruct (recognize env _ _) as [m [e|r]]; simpl in *; exact H.
Qed.

Lemma loop_inferences n i rest st :
  OcrService.inferences (ocr (loop env n i rest st))
  <= OcrService.inferences (ocr st) + length rest.
Proof.
  revert i st. induction rest as [|f rest IH]; intros i st; simpl; [lia|].
  pose proof (IH (S i) (iteration env n i f st)).
  pose proof (iteration_inferences n i f st). lia.
Qed.

(** C6. The files a run hands to the adapter are the [pending] files of
    the collection, in order, or none when the run stops early; it calls
    the engine at most once for each of them; and a record whose id no
    [pending] file carries is left as it is. So a [completed] or [error]
    file is not processed again, and a run started with no file in status
    [pending], such as a second run right after a first, changes no file,
    hands nothing to the adapter and makes no call of the engine. *)
Theorem rerun_targets_only_pending_files st :
  let st' := processImages env st in
  let targets := List.filter Spec.still_pending (files st) in
  (attempts st' = attempts st
   \/ attempts st' = attempts st ++ List.map ImageUpload.file targets)
  /\ OcrService.inferences (ocr st')
     <= OcrService.inferences (ocr st) + length targets
  /\ (forall k g, files st !! k = Some g ->
        (forall t, t ∈ targets -> id t <> id g) ->
        files st' !! k = Some g)
  /\ (Forall (fun f => status f <> pending) (files st) ->
      files st' = files st
      /\ attempts st' = attempts st
      /\ OcrService.inferences (ocr st') = OcrService.inferences (ocr st)).
Proof.
  intros st' targets. subst st' targets. rewrite <- pendingFiles_spec.
  assert (Hrun :
    (files (processImages env st) = files st
     /\ attempts (processImages env st) = attempts st
     /\ OcrService.inferences (ocr (processImages env st))
        = OcrService.inferences (ocr st))
    \/ (pendingFiles (files st) <> []
        /\ exists s0, files s0 = files st /\ attempts s0 = attempts st
             /\ OcrService.inferences (ocr s0) = OcrService.inferences (ocr st)
             /\ processImages env st
                = finally (raise (toast_success "All images processed successfully!")
                             (loop env (length (pendingFiles (files st))) 0
                                (pendingFiles (files st)) s0)))).
  { unfold processImages.
    destruct (length (files st) =? 0)%nat eqn:Hlen; [by left|].
    set (st0 := setProcessingProgress 0 (setIsProcessing true st)).
    destruct (ensure_initialized_frame env st0) as (Hf & Ha & _ & Hinf).
    destruct (ensure_initialized env st0) as [st1 [[]|[]]]; simpl in *.
    - left. by rewrite Hf, Ha, Hinf.
    - destruct (length (pendingFiles (files st)) =? 0)%nat eqn:Hp; simpl.
      + left. by rewrite Hf, Ha, Hinf.
      + right. split; [intros E; by rewrite E in Hp|]. by exists st1. }
  destruct Hrun as [(Hf & Ha & Hinf) | (Hne & s0 & Hf & Ha & Hinf & Hrun)].
  - split_and!.
    + by left.
    + lia.
    + intros k g Hk _. by rewrite Hf.
    + done.
  - split_and!.
    + right. rewrite Hrun. simpl. by rewrite loop_attempts, Ha.
    + rewrite Hrun. simpl.
      pose proof (loop_inferences (length (pendingFiles (files st))) 0
                    (pendingFiles (files st)) s0). lia.
    + intros k g Hk Hids. rewrite Hrun. simpl.
      apply loop_lookup_other; [by rewrite Hf|done].
    + intros Hall. exfalso. apply Hne. apply pendingFiles_nil.
      intros f Hin. rewrite Forall_forall in Hall. by apply Hall.
Qed.

Lemma NoDup_ids_filter (p : UploadedFile -> bool) (l : list UploadedFile) :
  NoDup (List.map id l) -> NoDup (List.map id (List.filter p l)).
Proof.
  induction l as [|x l IH]; simpl; [done|].
  intros Hnd. apply NoDup_cons in Hnd as [Hx Hl].
  destruct (p x); simpl; [|by apply IH].
  apply NoDup_cons. split; [|by apply IH].
  intros Hin. apply Hx.
  apply list_elem_of_In, in_map_iff in Hin as (y & Hy & Hyin).
  apply filter_In in Hyin as [Hyin _].
  apply list_elem_of_In, in_map_iff. eauto.
Qed.

Lemma NoDup_ids_split (pre post : list UploadedFile) f :
  NoDup (List.map id (pre ++ f :: post)) ->
  (forall t, t ∈ pre -> id t <> id f) /\ (forall t, t ∈ post -> id t <> id f).
Proof.
  rewrite List.map_app. simpl. intros Hnd.
  apply NoDup_app in Hnd as (_ & Hdisj & Hnd).
  apply NoDup_cons in Hnd as [Hf _]. split.
  - intros t Ht Heq. apply (Hdisj (id t)).
    + apply list_elem_of_In, in_map_iff. exists t. by rewrite <- list_elem_of_In.
    + rewrite Heq. by left.
  - intros t Ht Heq. apply Hf. rewrite <- Heq.
    apply list_elem_of_In, in_map_iff. exists t. by rewrite <- list_elem_of_In.
Qed.

Lemma NoDup_ids_lookup (l : list UploadedFile) j k g h :
  NoDup (List.map id l) -> l !! j = Some g -> l !! k = Some h ->
  id g = id h -> j = k.
Proof.
  intros Hnd Hj Hk Heq.
  apply (NoDup_lookup (List.map id l) j k (id g)); [done| |].
  - change (List.map id l) with (id <$> l). by rewrite list_lookup_fmap, Hj.
  - change (List.map id l) with (id <$> l). rewrite list_lookup_fmap, Hk. simpl.
    by rewrite Heq.
Qed.

(** The shape of a run that gets past initialization and has targets. *)
Lemma processImages_loop st :
  pendingFiles (files st) <> [] ->
  snd (ensure_initialized env (setProcessingProgress 0 (setIsProcessing true st)))
  = inr tt ->
  processImages env st
  = finally (raise (toast_success "All images processed successfully!")
               (loop env (length (pendingFiles (files st))) 0 (pendingFiles (files st))
                  (fst (ensure_initialized env
                          (setProcessingProgress 0 (setIsProcessing true st)))))).
Proof.
  intros Hne Hinit. unfold processImages.
  assert (Hfiles : files st <> []).
  { intros Hnil. apply Hne. by rewrite Hnil. }
  rewrite (nonempty_length _ Hfiles), (nonempty_length _ Hne).
  destruct (ensure_initialized env (setProcessingProgress 0 (setIsProcessing true st)))
    as [s0 r]. simpl in *. by subst r.
Qed.

(** In a run over a collection with distinct ids, in which the [pending]
    files have no text yet, when recognition of a targeted file fails the
    record of that file, and no other, is changed: it goes to status
    [error] and still has no extracted text.
    One error is reported, naming the file; the loop goes on with the
    files after it, so every targeted file is handed to the adapter; and
    the record is still [error], with no text, when the run ends. *)
Theorem failing_file_is_isolated st pre f post e :
  NoDup (List.map id (files st)) ->
  (forall g, g ∈ files st -> status g = pending -> extractedText g = None) ->
  pendingFiles (files st) = pre ++ f :: post ->
  let n := length (pendingFiles (files st)) in
  let begun := setProcessingProgress 0 (setIsProcessing true st) in
  snd (ensure_initialized env begun) = inr tt ->
  let s1 := loop env n 0 pre (fst (ensure_initialized env begun)) in
  snd (recognize env (ImageUpload.file f) (ocr s1)) = inl e ->
  let s2 := iteration env n (length pre) f s1 in
  let final := processImages env st in
  let failed := {| id := id f; file := ImageUpload.file f; preview := preview f;
                   status := error; extractedText := None |} in
  exists k,
    files s1 !! k = Some f
    /\ files s2 !! k = Some failed
    /\ (forall j g, j <> k -> files s1 !! j = Some g -> files s2 !! j = Some g)
    /\ toasts s2
       = toasts s1 ++ [toast_error ("Failed to process " ++ name (ImageUpload.file f))]
    /\ final = finally (raise (toast_success "All images processed successfully!")
                          (loop env n (S (length pre)) post s2))
    /\ attempts final = attempts st ++ List.map ImageUpload.file (pre ++ f :: post)
    /\ files final !! k = Some failed.
Proof.
  intros Hnd Hinv Htargets n begun Hinit s1 Hfail s2 final failed.
  destruct (ensure_initialized_frame env begun) as (Hf0 & Ha0 & _).
  change (files begun) with (files st) in Hf0.
  change (attempts begun) with (attempts st) in Ha0.
  set (s0 := fst (ensure_initialized env begun)) in *.
  assert (Hfin : f ∈ pendingFiles (files st)).
  { rewrite Htargets. apply elem_of_app. right. by left. }
  apply pendingFiles_elem in Hfin as [Hfin Hfs].
  pose proof (Hinv f Hfin Hfs) as Hft.
  apply list_elem_of_lookup in Hfin as [k Hk].
  assert (Hids : NoDup (List.map id (pre ++ f :: post))).
  { rewrite <- Htargets. by apply NoDup_ids_filter. }
  apply NoDup_ids_split in Hids as [Hpre Hpost].
  assert (Hk1 : files s1 !! k = Some f).
  { apply loop_lookup_other; [by rewrite Hf0|done]. }
  assert (Hk2 : files s2 !! k = Some failed).
  { subst s2. rewrite iteration_lookup, Hk1. simpl.
    rewrite String.eqb_refl, Hfail. simpl.
    unfold as_error, as_processing, failed. simpl. by rewrite Hft. }
  assert (Hnd1 : NoDup (List.map id (files s1))).
  { subst s1. by rewrite loop_ids, Hf0. }
  assert (Hfinal : final = finally (raise (toast_success "All images processed successfully!")
                                      (loop env n (S (length pre)) post s2))).
  { subst final. rewrite processImages_loop; [|by rewrite Htargets; destruct pre|done].
    fold begun n s0. rewrite Htargets, loop_app. reflexivity. }
  exists k. split; [done|]. split; [done|]. split; [|split; [|split; [done|split]]].
  - intros j g Hj Hg. subst s2. rewrite iteration_lookup, Hg. simpl.
    destruct (String.eqb_spec (id g) (id f)) as [Heq|_]; [|done].
    exfalso. apply Hj. by apply (NoDup_ids_lookup (files s1) j k g f).
  - subst s2. by rewrite iteration_toasts, Hfail.
  - rewrite Hfinal. simpl. rewrite loop_attempts. subst s2.
    rewrite iteration_attempts. subst s1. rewrite loop_attempts, Ha0.
    rewrite List.map_app. simpl. by rewrite <- !app_assoc.
  - rewrite Hfinal. simpl. apply loop_lookup_other; [done|].
    intros t Ht. simpl. by apply Hpost.
Qed.

End Runs.

Lemma initialization_failure_aborts_run_witness :
  DocumentConverter.files
    (DocumentConverter.processImages Examples.offline (Examples.session Examples.waiting))
  = Examples.waiting.
Proof.
  destruct (initialization_failure_aborts_run Examples.offline
              (Examples.session Examples.waiting)) as (H & _).
  - discriminate.
  - reflexivity.
  - reflexivity.
  - exact H.
Defined.

Lemma rerun_targets_only_pending_files_witness :
  DocumentConverter.files
    (DocumentConverter.processImages Examples.healthy
       (DocumentConverter.processImages Examples.healthy
          (Examples.session Examples.waiting)))
  = DocumentConverter.files
      (DocumentConverter.processImages Examples.healthy
         (Examples.session Examples.waiting)).
Proof.
  destruct (rerun_targets_only_pending_files Examples.healthy
              (DocumentConverter.processImages Examples.healthy
                 (Examples.session Examples.waiting))) as (_ & _ & _ & H).
  destruct H as (H & _).
  - vm_compute. repeat constructor; discriminate.
  - exact H.
Defined.

Lemma failing_file_is_isolated_witness :
  exists k,
    DocumentConverter.files
      (DocumentConverter.processImages Examples.one_broken
         (Examples.session Examples.waiting)) !! k
    = Some (Examples.record "1700000000000-1" "broken.png" ImageUpload.error None).
Proof.
  destruct (failing_file_is_isolated Examples.one_broken
              (Examples.session Examples.waiting)
              [Examples.record "1700000000000-0" "a.png" ImageUpload.pending None]
              (Examples.record "1700000000000-1" "broken.png" ImageUpload.pending None)
              [Examples.record "1700000000000-2" "c.png" ImageUpload.pending None]
              OcrService.failure)
    as (k & _ & _ & _ & _ & _ & _ & H).
  - apply (bool_decide_unpack _). vm_compute. exact I.
  - intros g Hg _. simpl in Hg.
    repeat (apply elem_of_cons in Hg as [->|Hg]; [reflexivity|]).
    by apply not_elem_of_nil in Hg.
  - reflexivity.
  - reflexivity.
  - reflexivity.
  - exists k. exact H.
Defined.

(** ** Where the code departs from its intent *)

(** C7. The id of a record is the clock reading inside its reader's
    callback followed by the file's index in its batch, so it does not
    separate two batches: the first files of two drops whose readers
    finish at the same clock reading get the same id. *)
Theorem ids_collide_across_batches :
  let st := DocumentConverter.drop [Examples.png "b.png"] [Examples.load 0]
              (DocumentConverter.drop [Examples.png "a.png"] [Examples.load 0]
                 DocumentConverter.initial) in
  List.map (fun r => ImageUpload.name (ImageUpload.file r)) (DocumentConverter.files st)
  = ["a.png"; "b.png"]
  /\ List.map ImageUpload.id (DocumentConverter.files st)
     = ["1700000000000-0"; "1700000000000-0"].
Proof. vm_compute. split; reflexivity. Qed.

(** C2. After two drops whose readers finish at the same clock reading
    the records of [a.png] and [broken.png] carry the same id. In the run
    over them [a.png] is recognized, and then the failure of [broken.png]
    puts the record of [a.png] in status [error] as well; the record of
    the failed file ends with the text read from [a.png]. *)
Theorem failure_spreads_to_file_with_same_id :
  let view := fun r => (ImageUpload.name (ImageUpload.file r), ImageUpload.id r,
                        ImageUpload.status r, ImageUpload.extractedText r) in
  let st := DocumentConverter.drop [Examples.png "broken.png"] [Examples.load 0]
              (DocumentConverter.drop [Examples.png "a.png"] [Examples.load 0]
                 DocumentConverter.initial) in
  let st' := DocumentConverter.processImages Examples.one_broken st in
  List.map view (DocumentConverter.files st)
  = [("a.png", "1700000000000-0", ImageUpload.pending, None);
     ("broken.png", "1700000000000-0", ImageUpload.pending, None)]
  /\ DocumentConverter.toasts st'
     = DocumentConverter.toasts st
       ++ [toast_info "Initializing OCR engine...";
           toast_success "Extracted text from a.png";
           toast_error "Failed to process broken.png";
           toast_success "All images processed successfully!"]
  /\ List.map view (DocumentConverter.files st')
     = [("a.png", "1700000000000-0", ImageUpload.error, Some "hello");
        ("broken.png", "1700000000000-0", ImageUpload.error, Some "hello")].
Proof. vm_compute. repeat split; reflexivity. Qed.

(** C8. A batch is handed to the queue by the [load] callback that
    completes it, and no callback handles a failed read: when one of two
    accepted files cannot be read, neither reaches the queue and no
    diagnostic is raised. *)
Theorem unread_file_drops_the_batch :
  let batch := [Examples.png "a.png"; Examples.png "b.png"] in
  List.filter Spec.accepted batch = batch
  /\ ImageUpload.onDrop batch [Examples.load 0] = ([], [])
  /\ DocumentConverter.files
       (DocumentConverter.drop batch [Examples.load 0] DocumentConverter.initial) = []
  /\ DocumentConverter.toasts
       (DocumentConverter.drop batch [Examples.load 0] DocumentConverter.initial) = [].
Proof. vm_compute. repeat split; reflexivity. Qed.

(** * Further properties of the code *)

(** ** Intake *)

Section MoreIntake.
Import ImageUpload.

Lemma check_rejection (f : File) :
  snd (check f) = if Spec.accepted f then [] else [rejection f].
Proof.
  unfold check, Spec.accepted, rejection.
  destruct (JS.startsWith "image/" (type f)); simpl; [|reflexivity].
  rewrite N.leb_antisym. by destruct (10 * 1024 * 1024 <? size f)%N.
Qed.

Lemma validation_splits_batch_aux (acceptedFiles : list File) :
  fst (validFiles acceptedFiles) = List.filter Spec.accepted acceptedFiles
  /\ snd (validFiles acceptedFiles)
     = List.map rejection (List.filter rejected acceptedFiles).
Proof.
  induction acceptedFiles as [|f l (IH1 & IH2)]; [done|].
  simpl. pose proof (check_accepted f) as Hc. pose proof (check_rejection f) as Hr.
  destruct (check f) as [ok ts]. destruct (validFiles l) as [vs ts'].
  simpl in *. subst ok ts vs ts'. unfold rejected in *.
  by destruct (Spec.accepted f).
Qed.

(** X1. The validation pass of [onDrop] splits a batch in two: it keeps, in
    drop order, exactly the files whose type starts with [image/] and whose
    size is at most 10 MiB, and raises for each other file, in drop order,
    one error toast, which blames the type whenever the type is wrong (also
    for a file that is too large as well) and the size otherwise. *)
Theorem validation_splits_batch (acceptedFiles : list File) :
  fst (validFiles acceptedFiles) = List.filter Spec.accepted acceptedFiles
  /\ snd (validFiles acceptedFiles)
     = List.map rejection (List.filter rejected acceptedFiles)
  /\ (length (fst (validFiles acceptedFiles)) + length (snd (validFiles acceptedFiles))
      = length acceptedFiles)%nat.
Proof.
  destruct (validation_splits_batch_aux acceptedFiles) as (H1 & H2).
  split; [done|]. split; [done|]. rewrite H1, H2, length_map. clear H1 H2.
  unfold rejected. induction acceptedFiles as [|f l IH]; [done|].
  simpl. destruct (Spec.accepted f); simpl; lia.
Qed.

Lemma fold_onload_short (valid : list File) (loads : list LoadEvent) (b : Batch) :
  (length (uploadedFiles b) + length loads < length valid)%nat ->
  let b' := fold_left (fun b ev => onload valid ev b) loads b in
  added b' = added b /\ toasts b' = toasts b.
Proof.
  revert b. induction loads as [|ev rest IH]; intros b Hlen; [done|].
  simpl in *. set (b1 := onload valid ev b).
  assert (Hb1 : (length (uploadedFiles b1) <= S (length (uploadedFiles b)))%nat
                /\ added b1 = added b /\ toasts b1 = toasts b).
  { subst b1. unfold onload. destruct (valid !! index ev) as [f|]; [|auto].
    rewrite length_app. simpl.
    replace (length (uploadedFiles b) + 1 =? length valid)%nat with false
      by (symmetry; apply Nat.eqb_neq; lia).
    simpl. rewrite length_app. simpl. split; [lia|done]. }
  destruct Hb1 as (Hl & Ha & Ht).
  destruct (IH b1) as [IHa IHt]; [lia|]. by rewrite IHa, IHt, Ha, Ht.
Qed.

(** X2. A batch reaches the queue all at once or not at all: as long as
    fewer [load] events have arrived than the batch has valid files (and
    always when it has none), nothing is handed to [onFilesAdded] and the
    only toasts are those of the rejected files. *)
Theorem incomplete_batch_adds_nothing (acceptedFiles : list File)
    (loads : list LoadEvent) :
  (length (List.filter Spec.accepted acceptedFiles) = 0
   \/ length loads < length (List.filter Spec.accepted acceptedFiles))%nat ->
  onDrop acceptedFiles loads
  = ([], List.map rejection (List.filter rejected acceptedFiles)).
Proof.
  intros Hshort. unfold onDrop.
  destruct (validation_splits_batch_aux acceptedFiles) as (Hv & Ht).
  destruct (validFiles acceptedFiles) as [valid ts]. simpl in Hv, Ht. subst valid ts.
  destruct (length (List.filter Spec.accepted acceptedFiles) =? 0)%nat eqn:Hz; [done|].
  apply Nat.eqb_neq in Hz. destruct Hshort as [Hs|Hs]; [done|].
  destruct (fold_onload_short (List.filter Spec.accepted acceptedFiles) loads
              {| uploadedFiles := []; added := [];
                 toasts := List.map rejection (List.filter rejected acceptedFiles) |})
    as [Ha Hts]; [simpl; lia|].
  simpl in *. by rewrite Ha, Hts.
Qed.

Lemma records_Forall2 (valid : list File) (loads : list LoadEvent) :
  (forall ev, ev ∈ loads -> is_Some (valid !! index ev)) ->
  Forall2 (fun ev r => valid !! index ev = Some (file r) /\ r = uploadedFile (file r) ev)
          loads (records valid loads).
Proof.
  unfold records. induction loads as [|ev rest IH]; intros Hidx; [constructor|].
  rewrite omap_cons. destruct (Hidx ev) as [f Hf]; [by left|]. rewrite Hf.
  change ((fun f0 => uploadedFile f0 ev) <$> Some f) with (Some (uploadedFile f ev)).
  cbv iota. constructor; [done|]. apply IH. intros x Hx. apply Hidx. by right.
Qed.

(** X3. When every reader of a batch delivers its [load] event, the batch
    is handed over exactly once, in the order the reads completed (not the
    order of the drop): the k-th queued record holds the file of the k-th
    event, is [pending], has no text and carries that event's clock reading
    and index as its id; the toasts are those of the rejected files followed
    by one success toast counting the valid files. *)
Theorem complete_batch_is_queued_in_load_order (acceptedFiles : list File)
    (loads : list LoadEvent) :
  index <$> loads ≡ₚ seq 0 (length (List.filter Spec.accepted acceptedFiles)) ->
  List.filter Spec.accepted acceptedFiles <> [] ->
  let valid := List.filter Spec.accepted acceptedFiles in
  Forall2 (fun ev r => valid !! index ev = Some (file r) /\ r = uploadedFile (file r) ev)
          loads (fst (onDrop acceptedFiles loads))
  /\ file <$> fst (onDrop acceptedFiles loads) ≡ₚ valid
  /\ snd (onDrop acceptedFiles loads)
     = List.map rejection (List.filter rejected acceptedFiles)
       ++ [toast_success (pretty (length valid) +:+ " image(s) uploaded successfully!")].
Proof.
  intros Hperm Hne valid. unfold onDrop.
  destruct (validation_splits_batch_aux acceptedFiles) as (Hv & Ht).
  destruct (validFiles acceptedFiles) as [valid' ts]. simpl in Hv, Ht. subst valid' ts.
  fold valid in Hperm, Hne |- *.
  rewrite (nonempty_length _ Hne).
  assert (Hidx : forall ev, ev ∈ loads -> is_Some (valid !! index ev)).
  { intros ev Hev. apply lookup_lt_is_Some.
    assert (Hi : index ev ∈ seq 0 (length valid)).
    { rewrite <- Hperm. by apply list_elem_of_fmap_2. }
    apply elem_of_seq in Hi. lia. }
  assert (Hlen : length loads = length valid).
  { rewrite <- (length_fmap index), Hperm. apply length_seq. }
  destruct (fold_onload valid loads
              {| uploadedFiles := []; added := [];
                 toasts := List.map rejection (List.filter rejected acceptedFiles) |})
    as [Ha Hts]; [done|done| |].
  { intros ->. destruct valid; [done|discriminate]. }
  simpl in *. rewrite Ha, Hts. split; [by apply records_Forall2|]. split; [|done].
  rewrite records_files, Hperm. by rewrite omap_lookup_seq.
Qed.

Lemma records_cons (valid : list File) (ev : LoadEvent) (rest : list LoadEvent) :
  records valid (ev :: rest)
  = match valid !! index ev with
    | Some f => uploadedFile f ev :: records valid rest
    | None => records valid rest
    end.
Proof. unfold records. rewrite omap_cons. by destruct (valid !! index ev). Qed.

Lemma fold_onload_full (valid : list File) (loads : list LoadEvent) (b : Batch) :
  (length valid <= length (uploadedFiles b))%nat ->
  added (fold_left (fun b ev => onload valid ev b) loads b) = added b.
Proof.
  revert b. induction loads as [|ev rest IH]; intros b Hlen; [done|].
  simpl. set (b1 := onload valid ev b).
  assert (Hb1 : (length valid <= length (uploadedFiles b1))%nat /\ added b1 = added b).
  { subst b1. unfold onload. destruct (valid !! index ev) as [f|]; [|auto].
    rewrite length_app. simpl.
    replace (length (uploadedFiles b) + 1 =? length valid)%nat with false
      by (symmetry; apply Nat.eqb_neq; lia).
    simpl. rewrite length_app. simpl. split; [lia|done]. }
  destruct Hb1 as [Hl Ha]. by rewrite IH, Ha.
Qed.

(** Whatever events arrive, a batch is handed over at most once, and what
    is handed over are the records of the events up to some point. *)
Lemma fold_onload_prefix (valid : list File) (loads : list LoadEvent) (b : Batch) :
  let b' := fold_left (fun b ev => onload valid ev b) loads b in
  added b' = added b
  \/ exists k, added b' = added b ++ uploadedFiles b ++ records valid (take k loads).
Proof.
  revert b. induction loads as [|ev rest IH]; intros b; [by left|].
  simpl. set (b1 := onload valid ev b).
  destruct (valid !! index ev) as [f|] eqn:Hf.
  - destruct (length (uploadedFiles b ++ [uploadedFile f ev]) =? length valid)%nat eqn:Hn.
    + right. exists 1%nat.
      assert (Hb1 : uploadedFiles b1 = uploadedFiles b ++ [uploadedFile f ev]
                    /\ added b1 = added b ++ uploadedFiles b ++ [uploadedFile f ev]).
      { subst b1. unfold onload. by rewrite Hf, Hn. }
      destruct Hb1 as [Hu Ha]. rewrite fold_onload_full.
      * rewrite Ha. change (take 1 (ev :: rest)) with (ev :: take 0 rest).
        rewrite records_cons, Hf, take_0. reflexivity.
      * rewrite Hu. apply Nat.eqb_eq in Hn. lia.
    + assert (Hb1 : uploadedFiles b1 = uploadedFiles b ++ [uploadedFile f ev]
                    /\ added b1 = added b).
      { subst b1. unfold onload. by rewrite Hf, Hn. }
      destruct Hb1 as [Hu Ha]. destruct (IH b1) as [IH1|[k IH1]].
      * left. by rewrite IH1.
      * right. exists (S k). rewrite IH1, Ha, Hu.
        change (take (S k) (ev :: rest)) with (ev :: take k rest).
        rewrite records_cons, Hf. by rewrite <- ?app_assoc.
  - assert (Hb1 : b1 = b) by (subst b1; unfold onload; by rewrite Hf).
    rewrite Hb1. destruct (IH b) as [IH1|[k IH1]]; [by left|].
    right. exists (S k). rewrite IH1.
    change (take (S k) (ev :: rest)) with (ev :: take k rest).
    by rewrite records_cons, Hf.
Qed.

(** X4. The records a batch hands to the queue have pairwise distinct ids,
    whatever the clock does: each reader fires at most once, and the index
    that ends an id tells the readers of one batch apart. *)
Theorem batch_ids_are_distinct (acceptedFiles : list File) (loads : list LoadEvent) :
  NoDup (index <$> loads) ->
  NoDup (id <$> fst (onDrop acceptedFiles loads)).
Proof.
  intros Hnd. unfold onDrop.
  destruct (validFiles acceptedFiles) as [valid ts].
  destruct (length valid =? 0)%nat; [constructor|]. simpl.
  destruct (fold_onload_prefix valid loads
              {| uploadedFiles := []; added := []; toasts := ts |}) as [Ha|[k Ha]];
    simpl in Ha; rewrite Ha; [constructor|].
  apply ids_distinct_within_batch.
  apply (sublist_NoDup _ (index <$> loads)); [exact Hnd|].
  apply fmap_sublist, sublist_take.
Qed.

End MoreIntake.

(** ** The OCR adapter *)

Section MoreOcr.
Import OcrService.

Variable env : Env.

(** X5. With the pipeline in place, one recognition is one engine call on
    the canvas data and touches nothing else: whether it returns a result,
    the engine rejects the image or the canvas has no 2d context, the
    pipeline stays the one that was set, nothing is created or assigned,
    and the only error ever thrown is the fixed one. So a failure on one
    image does not spoil the engine for the next. *)
Theorem set_pipeline_survives_recognition (img : HTMLImageElement) (m : Module_)
    (run : Pipeline) :
  ocrPipeline m = Some run ->
  let m' := fst (extractTextFromImage env img m) in
  ocrPipeline m' = Some run
  /\ created m' = created m /\ assigned m' = assigned m /\ inflight m' = inflight m
  /\ inferences m' = (inferences m + if getContext env then 1 else 0)%nat
  /\ snd (extractTextFromImage env img m)
     = if getContext env then
         match run (imageData env img) with
         | Some out => inr {| text := default "" (generated_text out); confidence := 0.8 |}
         | None => inl failure
         end
       else inl failure.
Proof.
  intros Hp. unfold extractTextFromImage, imageData. rewrite Hp.
  destruct (getContext env); simpl; [|repeat split; try done; lia].
  destruct (resize img) as [w h]. simpl. rewrite Hp.
  destruct (run (toDataURL env img w h)) as [out|]; simpl;
    rewrite ?or_empty_default; repeat split; try done; lia.
Qed.

Lemma initializeOCR_unset (m : Module_) :
  ocrPipeline m = None -> inflight m = [] ->
  let m' := fst (initializeOCR env m) in
  ocrPipeline m' = pipeline env (created m)
  /\ created m' = S (created m) /\ inflight m' = []
  /\ inferences m' = inferences m
  /\ snd (initializeOCR env m)
     = match pipeline env (created m) with Some _ => inr tt | None => inl tt end.
Proof.
  intros Hp Hi. unfold initializeOCR, settled, enter_initializeOCR. rewrite Hp. simpl.
  rewrite Hi. simpl.
  rewrite bool_decide_eq_true_2 by (apply list_elem_of_singleton; reflexivity).
  rewrite Nat.eqb_refl.
  destruct (pipeline env (created m)); simpl; by rewrite ?Hp.
Qed.

(** X6. A failed initialization is not remembered: it leaves [ocrPipeline]
    unset and nothing in flight, so the next call of [initializeOCR] calls
    [pipeline(...)] again, and if that creation succeeds its pipeline is
    installed. *)
Theorem failed_initialization_is_retried (m : Module_) (p : Pipeline) :
  ocrPipeline m = None -> inflight m = [] ->
  pipeline env (created m) = None ->
  pipeline env (S (created m)) = Some p ->
  let m1 := fst (initializeOCR env m) in
  let m2 := fst (initializeOCR env m1) in
  snd (initializeOCR env m) = inl tt
  /\ ocrPipeline m1 = None
  /\ snd (initializeOCR env m1) = inr tt
  /\ ocrPipeline m2 = Some p
  /\ created m2 = S (S (created m)).
Proof.
  intros Hp Hi Hfail Hok m1 m2.
  destruct (initializeOCR_unset m Hp Hi) as (H1 & H2 & H3 & _ & H5).
  fold m1 in H1, H2, H3. rewrite Hfail in H1, H5.
  destruct (initializeOCR_unset m1 H1 H3) as (G1 & G2 & _ & _ & G5).
  fold m2 in G1, G2. rewrite H2, Hok in G1, G5. rewrite H2 in G2.
  done.
Qed.

(** X7. Recognition of an image started with [ocrPipeline] unset
    initializes the engine on the way: if the creation succeeds the image
    is recognized with the new pipeline, which stays installed; if it
    fails, the call throws the fixed error without any engine call. *)
Theorem recognition_initializes_lazily (img : HTMLImageElement) (m : Module_) :
  ocrPipeline m = None -> inflight m = [] ->
  let m' := fst (extractTextFromImage env img m) in
  ocrPipeline m' = pipeline env (created m)
  /\ created m' = S (created m)
  /\ match pipeline env (created m) with
     | Some run =>
         snd (extractTextFromImage env img m)
         = (if getContext env then
              match run (imageData env img) with
              | Some out =>
                  inr {| text := default "" (generated_text out); confidence := 0.8 |}
              | None => inl failure
              end
            else inl failure)
     | None =>
         snd (extractTextFromImage env img m) = inl failure
         /\ inferences m' = inferences m
     end.
Proof.
  intros Hp Hi.
  destruct (initializeOCR_unset m Hp Hi) as (H1 & H2 & _ & H4 & H5).
  unfold extractTextFromImage, imageData. rewrite Hp.
  destruct (initializeOCR env m) as [m1 r]. simpl in *. subst r.
  destruct (pipeline env (created m)) as [run|] eqn:Hc; simpl; [|done].
  destruct (getContext env); simpl; [|done].
  destruct (resize img) as [w h]. simpl. rewrite H1.
  destruct (run (toDataURL env img w h)) as [out|]; simpl;
    rewrite ?or_empty_default; done.
Qed.

(** Invariants of the module state under any interleaving of calls and
    settlements. *)
Lemma step_invariants (m : Module_) (e : Event) :
  NoDup (inflight m) ->
  (forall k, k ∈ inflight m -> (k < created m)%nat) ->
  (assigned m + length (inflight m) <= created m)%nat ->
  (is_Some (ocrPipeline m) <-> (0 < assigned m)%nat) ->
  let m' := step env m e in
  NoDup (inflight m')
  /\ (forall k, k ∈ inflight m' -> (k < created m')%nat)
  /\ (assigned m' + length (inflight m') <= created m')%nat
  /\ (is_Some (ocrPipeline m') <-> (0 < assigned m')%nat)
  /\ (created m' <= created m + if is_call e then 1 else 0)%nat.
Proof.
  intros Hnd Hlt Hsum Hset.
  assert (Hsame : forall d : nat,
            NoDup (inflight m)
            /\ (forall k, k ∈ inflight m -> (k < created m)%nat)
            /\ (assigned m + length (inflight m) <= created m)%nat
            /\ (is_Some (ocrPipeline m) <-> (0 < assigned m)%nat)
            /\ (created m <= created m + d)%nat).
  { intros d. split_and!; [done|done|done|done|lia]. }
  assert (Henter : let m' := enter_initializeOCR m in
            NoDup (inflight m')
            /\ (forall k, k ∈ inflight m' -> (k < created m')%nat)
            /\ (assigned m' + length (inflight m') <= created m')%nat
            /\ (is_Some (ocrPipeline m') <-> (0 < assigned m')%nat)
            /\ (created m' <= created m + 1)%nat).
  { unfold enter_initializeOCR. destruct (ocrPipeline m) eqn:Hp.
    - rewrite <- Hp in Hsame. exact (Hsame 1%nat).
    - simpl. split_and!.
      + apply NoDup_app. split; [done|]. split; [|apply NoDup_singleton].
        intros k Hk Hk'. apply list_elem_of_singleton in Hk'. subst k.
        apply Hlt in Hk. lia.
      + intros k Hk. apply elem_of_app in Hk as [Hk|Hk].
        * apply Hlt in Hk. lia.
        * apply list_elem_of_singleton in Hk. lia.
      + rewrite length_app. simpl. lia.
      + exact Hset.
      + lia. }
  destruct e as [| |k]; simpl.
  - exact Henter.
  - unfold enter_extractTextFromImage. destruct (ocrPipeline m) eqn:Hp; [|exact Henter].
    rewrite <- Hp in Hsame. exact (Hsame 1%nat).
  - unfold settled. case_bool_decide as Hin; [|exact (Hsame 0%nat)].
    assert (Hfl : (S (length (List.filter (fun j => negb (j =? k)%nat) (inflight m)))
                   <= length (inflight m))%nat).
    { clear -Hin. induction (inflight m) as [|j l IH]; [by apply not_elem_of_nil in Hin|].
      simpl. destruct (Nat.eqb_spec j k) as [->|Hne]; simpl.
      - pose proof (List.filter_length_le (fun j => negb (j =? k)%nat) l). lia.
      - apply elem_of_cons in Hin as [Hin|Hin]; [congruence|]. specialize (IH Hin). lia. }
    assert (Hnd' : NoDup (List.filter (fun j => negb (j =? k)%nat) (inflight m))).
    { apply (sublist_NoDup _ (inflight m)); [done|].
      clear. induction (inflight m) as [|j l IH]; [constructor|].
      simpl. destruct (negb (j =? k)%nat); by constructor. }
    assert (Hlt' : forall j, j ∈ List.filter (fun j => negb (j =? k)%nat) (inflight m) ->
                             (j < created m)%nat).
    { intros j Hj. apply Hlt. apply list_elem_of_In in Hj. apply filter_In in Hj as [Hj _].
      by apply list_elem_of_In. }
    destruct (pipeline env k); simpl.
    + split_and!; [done|done|lia| |lia]. split; [lia|eauto].
    + split_and!; [done|done|lia|done|lia].
Qed.

(** X8. Under any interleaving of calls and settlements, starting from the
    freshly loaded module: no creation is in flight twice, every creation
    in flight was started, the pipelines assigned and the creations in
    flight never outnumber the creations started, [ocrPipeline] is set
    exactly when an assignment has happened (it is never reset), and at
    most one creation is started per call. *)
Theorem module_invariants (es : list Event) :
  let m := exec env es initial in
  NoDup (inflight m)
  /\ (forall k, k ∈ inflight m -> (k < created m)%nat)
  /\ (assigned m + length (inflight m) <= created m)%nat
  /\ (is_Some (ocrPipeline m) <-> (0 < assigned m)%nat)
  /\ (created m <= length (List.filter is_call es))%nat.
Proof.
  unfold exec.
  induction es as [|e es IH] using rev_ind.
  - simpl. split_and!; [constructor| |lia| |lia].
    + intros k Hk. by apply not_elem_of_nil in Hk.
    + split; [intros [p Hp]; discriminate|lia].
  - rewrite fold_left_app. simpl.
    destruct IH as (H1 & H2 & H3 & H4 & H5).
    destruct (step_invariants (fold_left (step env) es initial) e H1 H2 H3 H4)
      as (G1 & G2 & G3 & G4 & G5).
    split_and!; [done|done|done|done|].
    rewrite List.filter_app, length_app. simpl.
    destruct (is_call e); simpl in *; lia.
Qed.

End MoreOcr.

(** ** The run orchestrator *)

Section MoreRuns.
Import ImageUpload DocumentConverter.

Variable env : OcrService.Env.

(** How a record may change in a run. *)
Lemma verdict_fields r f :
  id (verdict r f) = id f /\ file (verdict r f) = file f
  /\ preview (verdict r f) = preview f
  /\ (status (verdict r f) = completed \/ status (verdict r f) = error).
Proof. destruct r; simpl; auto. Qed.

Lemma loop_lookup_advances n i rest st k f :
  files st !! k = Some f ->
  exists f',
    files (loop env n i rest st) !! k = Some f'
    /\ id f' = id f /\ file f' = file f /\ preview f' = preview f
    /\ (f' = f \/ status f' = completed \/ status f' = error)
    /\ ((forall t, t ∈ rest -> id t <> id f) -> f' = f).
Proof.
  revert i st f. induction rest as [|t rest IH]; intros i st f Hk.
  - exists f. simpl. split_and!; auto.
  - simpl.
    set (g := fun x => if String.eqb (id x) (id t)
                       then verdict (snd (recognize env (file t) (ocr st))) x else x).
    assert (Hk1 : files (iteration env n i t st) !! k = Some (g f)).
    { by rewrite iteration_lookup, Hk. }
    destruct (IH (S i) _ _ Hk1) as (f' & Hf' & Hid & Hfile & Hprev & Hst & Hsame).
    destruct (verdict_fields (snd (recognize env (file t) (ocr st))) f)
      as (Vid & Vfile & Vprev & Vst).
    assert (Hg : id (g f) = id f /\ file (g f) = file f /\ preview (g f) = preview f
                 /\ (g f = f \/ status (g f) = completed \/ status (g f) = error)
                 /\ (id t <> id f -> g f = f)).
    { subst g. simpl. destruct (String.eqb_spec (id f) (id t)) as [Heq|Hne].
      - split_and!; auto. intros Hne. by rewrite Heq in Hne.
      - split_and!; auto. }
    destruct Hg as (Gid & Gfile & Gprev & Gst & Gsame).
    exists f'. split; [done|]. split_and!; try congruence.
    + destruct Hst as [->|Hst]; [exact Gst|by right].
    + intros Hne. rewrite Hsame.
      * apply Gsame. apply Hne. by left.
      * intros x Hx. rewrite Gid. apply Hne. by right.
Qed.

Lemma run_lookup_advances (st : State) :
  length (files (processImages env st)) = length (files st)
  /\ forall k f,
       files st !! k = Some f ->
       exists f',
         files (processImages env st) !! k = Some f'
         /\ id f' = id f /\ file f' = file f /\ preview f' = preview f
         /\ (f' = f \/ status f' = completed \/ status f' = error)
         /\ ((forall t, t ∈ files st -> status t = pending -> id t <> id f) -> f' = f).
Proof.
  assert (Hsame : forall st', files st' = files st ->
            length (files st') = length (files st)
            /\ forall k f, files st !! k = Some f ->
                 exists f', files st' !! k = Some f'
                   /\ id f' = id f /\ file f' = file f /\ preview f' = preview f
                   /\ (f' = f \/ status f' = completed \/ status f' = error)
                   /\ ((forall t, t ∈ files st -> status t = pending -> id t <> id f)
                       -> f' = f)).
  { intros st' ->. split; [done|]. intros k f Hk. exists f. split_and!; auto. }
  unfold processImages.
  destruct (length (files st) =? 0)%nat; [by apply Hsame|].
  set (st0 := setProcessingProgress 0 (setIsProcessing true st)).
  destruct (ensure_initialized_frame env st0) as (Hf & _).
  change (files st0) with (files st) in Hf.
  destruct (ensure_initialized env st0) as [s0 [[]|[]]]; simpl in Hf.
  - by apply Hsame.
  - destruct (length (pendingFiles (files st)) =? 0)%nat; [by apply Hsame|].
    simpl. split.
    + rewrite <- (length_map id), loop_ids, length_map. by rewrite Hf.
    + intros k f Hk. rewrite <- Hf in Hk.
      destruct (loop_lookup_advances (length (pendingFiles (files st))) 0
                  (pendingFiles (files st)) s0 k f Hk)
        as (f' & H1 & H2 & H3 & H4 & H5 & H6).
      exists f'. split_and!; try done.
      intros Hne. apply H6. intros t Ht. apply pendingFiles_elem in Ht as [Ht Hs].
      by apply Hne.
Qed.

(** X9. Whatever the engine does, a run never adds, removes or reorders a
    file and never touches an id, a file or a preview; a record it changes
    ends [completed] or [error], so no status goes back to [pending] and
    none is left at [processing] by the run; and it changes a record only
    if a file with the same id was [pending] when the run started. *)
Theorem run_only_advances_statuses (st : State) :
  Forall2
    (fun f f' =>
       id f' = id f /\ file f' = file f /\ preview f' = preview f
       /\ (f' = f \/ status f' = completed \/ status f' = error)
       /\ ((forall t, t ∈ files st -> status t = pending -> id t <> id f) -> f' = f))
    (files st) (files (processImages env st)).
Proof.
  destruct (run_lookup_advances st) as [Hlen Hrun].
  apply Forall2_same_length_lookup_2; [by rewrite Hlen|].
  intros k f f' Hf Hf'.
  destruct (Hrun k f Hf) as (g & Hg & Hrest).
  rewrite Hf' in Hg. injection Hg as <-. exact Hrest.
Qed.

(** X26. A file that is [pending] when a run starts is [completed] or
    [error] when the run ends, provided the run got past initialization;
    this needs no assumption on the ids. *)
Theorem pending_file_ends_terminal (st : State) (k : nat) (f : UploadedFile) :
  ocrInitialized (processImages env st) = true ->
  files st !! k = Some f ->
  status f = pending ->
  exists f',
    files (processImages env st) !! k = Some f'
    /\ id f' = id f /\ file f' = file f
    /\ (status f' = completed \/ status f' = error).
Proof.
  intros Hi Hk Hs.
  destruct (run_lookup_advances st) as [_ Hrun].
  destruct (Hrun k f Hk) as (f' & Hk' & Hid & Hfile & _ & Hst & _).
  exists f'. split_and!; try done.
  destruct Hst as [->|Hst]; [|done].
  exfalso. pose proof (nothing_pending_after_run env st Hi) as Hnone.
  assert (Hin : f ∈ pendingFiles (files (processImages env st))).
  { apply pendingFiles_elem. split; [|done]. by apply list_elem_of_lookup_2 in Hk'. }
  rewrite Hnone in Hin. by apply not_elem_of_nil in Hin.
Qed.

Lemma recognize_with_pipeline (f : File) (m : OcrService.Module_)
    (run : OcrService.Pipeline) :
  OcrService.ocrPipeline m = Some run ->
  snd (recognize env f m) = outcome env run f
  /\ OcrService.ocrPipeline (fst (recognize env f m)) = Some run
  /\ OcrService.created (fst (recognize env f m)) = OcrService.created m
  /\ (OcrService.inferences (fst (recognize env f m))
      <= S (OcrService.inferences m))%nat.
Proof.
  intros Hp. unfold recognize, outcome.
  destruct (OcrService.loadImage env f) as [img|]; [|split_and!; auto].
  unfold OcrService.extractTextFromImage, imageData. rewrite Hp.
  destruct (OcrService.getContext env); simpl; [|split_and!; auto].
  destruct (OcrService.resize img) as [w h]. simpl. rewrite Hp.
  destruct (run (OcrService.toDataURL env img w h)) as [out|]; simpl;
    rewrite ?or_empty_default; split_and!; auto.
Qed.

Lemma iteration_with_pipeline n i t st run :
  OcrService.ocrPipeline (ocr st) = Some run ->
  files (iteration env n i t st)
  = List.map (fun f => if String.eqb (id f) (id t)
                       then verdict (outcome env run (file t)) f else f) (files st)
  /\ OcrService.ocrPipeline (ocr (iteration env n i t st)) = Some run
  /\ OcrService.created (ocr (iteration env n i t st)) = OcrService.created (ocr st)
  /\ toasts (iteration env n i t st)
     = toasts st ++
       [match outcome env run (file t) with
        | inr _ => toast_success ("Extracted text from " +:+ name (file t))
        | inl _ => toast_error ("Failed to process " +:+ name (file t))
        end].
Proof.
  intros Hp.
  destruct (recognize_with_pipeline (file t) (ocr st) run Hp) as (H1 & H2 & H3 & _).
  rewrite iteration_files, iteration_toasts, H1. split; [done|].
  split; [|split; [|done]].
  - unfold iteration. simpl.
    destruct (recognize env (file t) (ocr st)) as [m [e|r]]; simpl in *; done.
  - unfold iteration. simpl.
    destruct (recognize env (file t) (ocr st)) as [m [e|r]]; simpl in *; done.
Qed.

Lemma ensure_initialized_flag (st : State) :
  snd (ensure_initialized env st) = inr tt ->
  ocrInitialized (fst (ensure_initialized env st)) = true
  /\ toasts (fst (ensure_initialized env st))
     = toasts st ++ (if ocrInitialized st then []
                     else [toast_info "Initializing OCR engine..."]).
Proof.
  unfold ensure_initialized.
  destruct (ocrInitialized st) eqn:Hi; simpl.
  - intros _. by rewrite app_nil_r.
  - destruct (OcrService.initializeOCR env (ocr st)) as [m [[]|[]]]; simpl; done.
Qed.

Lemma iteration_flag n i t st :
  ocrInitialized (iteration env n i t st) = ocrInitialized st
  /\ isProcessing (iteration env n i t st) = isProcessing st.
Proof.
  unfold iteration. simpl.
  by destruct (recognize env (file t) (ocr st)) as [m [e|r]].
Qed.

Lemma loop_flag n i rest st :
  ocrInitialized (loop env n i rest st) = ocrInitialized st.
Proof.
  revert i st. induction rest as [|t rest IH]; intros i st; simpl; [done|].
  rewrite IH. apply iteration_flag.
Qed.

Lemma verdict_after_recognition o f : verdict o f = after_recognition o f.
Proof. by destruct o. Qed.

Lemma loop_toasts_with_pipeline n i rest st run :
  OcrService.ocrPipeline (ocr st) = Some run ->
  toasts (loop env n i rest st)
  = toasts st ++ List.map (fun t => report (outcome env run (file t)) t) rest
  /\ OcrService.ocrPipeline (ocr (loop env n i rest st)) = Some run
  /\ OcrService.created (ocr (loop env n i rest st)) = OcrService.created (ocr st).
Proof.
  revert i st. induction rest as [|t rest IH]; intros i st Hp; simpl.
  - by rewrite app_nil_r.
  - destruct (iteration_with_pipeline n i t st run Hp) as (_ & Hp1 & Hc1 & Ht1).
    destruct (IH (S i) _ Hp1) as (IHt & IHp & IHc).
    rewrite IHt, Ht1, IHc, Hc1, <- app_assoc. done.
Qed.

Lemma hit_same_id rest f f' : id f' = id f -> hit rest f' = hit rest f.
Proof. unfold hit. by intros ->. Qed.

Lemma hit_false rest f : (forall t, t ∈ rest -> id t <> id f) -> hit rest f = false.
Proof.
  intros Hne. unfold hit. apply not_true_is_false. intros Hex.
  apply existsb_exists in Hex as (t & Ht & Heq).
  apply String.eqb_eq in Heq. apply (Hne t); [by apply list_elem_of_In|done].
Qed.

Lemma loop_files_with_pipeline n i rest st run :
  OcrService.ocrPipeline (ocr st) = Some run ->
  NoDup (List.map id rest) ->
  (forall f t, f ∈ files st -> t ∈ rest -> id f = id t -> file f = file t) ->
  files (loop env n i rest st)
  = List.map (fun f => if hit rest f then after_recognition (outcome env run (file f)) f
                       else f) (files st).
Proof.
  revert i st. induction rest as [|t rest IH]; intros i st Hp Hnd Hfile; simpl.
  - symmetry. apply map_id.
  - apply NoDup_cons in Hnd as [Ht Hnd].
    destruct (iteration_with_pipeline n i t st run Hp) as (Hf1 & Hp1 & _).
    rewrite IH; [|done|done|].
    + rewrite Hf1, List.map_map. apply map_ext_in. intros f Hf.
      apply list_elem_of_In in Hf.
      destruct (String.eqb_spec (id f) (id t)) as [Heq|Hne]; simpl.
      * rewrite (hit_same_id rest f) by apply verdict_fields.
        rewrite hit_false.
        -- rewrite (Hfile f t Hf) by (by left || done).
           apply verdict_after_recognition.
        -- intros x Hx Hxf. apply Ht. rewrite <- Heq, <- Hxf.
           apply list_elem_of_In, in_map. by apply list_elem_of_In.
      * reflexivity.
    + intros f x Hf Hx Hfx. rewrite Hf1 in Hf.
      apply list_elem_of_In, in_map_iff in Hf as (f0 & <- & Hf0).
      apply list_elem_of_In in Hf0.
      destruct (String.eqb (id f0) (id t)).
      * destruct (verdict_fields (outcome env run (file t)) f0) as (Vid & Vfile & _).
        rewrite Vfile. apply Hfile; [done|by right|]. by rewrite <- Vid.
      * apply Hfile; [done|by right|done].
Qed.

Lemma NoDup_ids_eq (l : list UploadedFile) f t :
  NoDup (List.map id l) -> f ∈ l -> t ∈ l -> id f = id t -> f = t.
Proof.
  intros Hnd Hf Ht Heq.
  apply list_elem_of_lookup in Hf as [j Hj]. apply list_elem_of_lookup in Ht as [k Hk].
  assert (j = k) by (by apply (NoDup_ids_lookup l j k f t)). subst. congruence.
Qed.

Lemma hit_pending (l : list UploadedFile) f :
  NoDup (List.map id l) -> f ∈ l ->
  hit (pendingFiles l) f = Status_eqb (status f) pending.
Proof.
  intros Hnd Hf. destruct (Status_eqb (status f) pending) eqn:Hs.
  - unfold hit. apply existsb_exists. exists f. split; [|apply String.eqb_refl].
    apply list_elem_of_In, pendingFiles_elem. split; [done|]. by destruct (status f).
  - apply hit_false. intros t Ht Heq. apply pendingFiles_elem in Ht as [Ht Hst].
    assert (t = f) by (by apply (NoDup_ids_eq l)). subst t. by rewrite Hst in Hs.
Qed.

(** X10. A run over files with distinct ids, once the pipeline is in place,
    does to the collection exactly this: every file that was [pending]
    becomes [completed] with the recognized text if its recognition
    succeeds and [error] with its text untouched otherwise, every other
    file is left as it is, and the order is kept. *)
Theorem run_processes_every_pending_file (st : State) (run : OcrService.Pipeline) :
  NoDup (List.map id (files st)) ->
  snd (ensure_initialized env (begun st)) = inr tt ->
  OcrService.ocrPipeline (ocr (fst (ensure_initialized env (begun st)))) = Some run ->
  files (processImages env st)
  = List.map (fun f => if Status_eqb (status f) pending
                       then after_recognition (outcome env run (file f)) f
                       else f) (files st).
Proof.
  intros Hnd Hinit Hp.
  destruct (ensure_initialized_frame env (begun st)) as (Hf & _).
  change (files (begun st)) with (files st) in Hf.
  destruct (decide (pendingFiles (files st) = [])) as [Htargets|Htargets].
  - assert (Hnone : forall f, f ∈ files st -> Status_eqb (status f) pending = false).
    { intros f Hin. destruct (Status_eqb (status f) pending) eqn:Hs; [|done].
      assert (Hpf : f ∈ pendingFiles (files st)).
      { apply pendingFiles_elem. split; [done|]. by destruct (status f). }
      rewrite Htargets in Hpf. by apply not_elem_of_nil in Hpf. }
    transitivity (files st).
    + unfold processImages. destruct (length (files st) =? 0)%nat; [done|].
      fold (begun st). destruct (ensure_initialized env (begun st)) as [s0 [[]|[]]];
        simpl in *; [done|]. by rewrite Htargets.
    + rewrite <- (map_id (files st)) at 1. apply map_ext_in. intros f Hin.
      by rewrite Hnone by (by apply list_elem_of_In).
  - rewrite processImages_loop; [|done|exact Hinit].
    fold (begun st). simpl.
    rewrite (loop_files_with_pipeline _ _ _ _ run); [| done | by apply NoDup_ids_filter |].
    + rewrite Hf. apply map_ext_in. intros f Hin.
      by rewrite hit_pending by (done || by apply list_elem_of_In).
    + intros f t Hin Ht Heq. rewrite Hf in Hin.
      apply pendingFiles_elem in Ht as [Ht _].
      by rewrite (NoDup_ids_eq (files st) f t).
Qed.

(** X11. Once the pipeline is in place, a run with targets hands them to
    the adapter one by one in queue order and raises one toast per target,
    in that order, a success or an error one according to the outcome; it
    then always raises [All images processed successfully!], also when
    every target failed. It creates no pipeline, sets [ocrInitialized] and
    resets [isProcessing]. *)
Theorem run_reports_every_target (st : State) (run : OcrService.Pipeline) :
  pendingFiles (files st) <> [] ->
  snd (ensure_initialized env (begun st)) = inr tt ->
  OcrService.ocrPipeline (ocr (fst (ensure_initialized env (begun st)))) = Some run ->
  let st' := processImages env st in
  attempts st' = attempts st ++ List.map file (pendingFiles (files st))
  /\ toasts st'
     = toasts st
       ++ (if ocrInitialized st then [] else [toast_info "Initializing OCR engine..."])
       ++ List.map (fun t => report (outcome env run (file t)) t) (pendingFiles (files st))
       ++ [toast_success "All images processed successfully!"]
  /\ OcrService.created (ocr st')
     = OcrService.created (ocr (fst (ensure_initialized env (begun st))))
  /\ ocrInitialized st' = true
  /\ isProcessing st' = false.
Proof.
  intros Hne Hinit Hp st'. subst st'.
  rewrite processImages_loop; [|done|exact Hinit]. fold (begun st).
  destruct (ensure_initialized_frame env (begun st)) as (_ & Ha & _).
  destruct (ensure_initialized_flag (begun st) Hinit) as [Ho Ht].
  destruct (loop_toasts_with_pipeline (length (pendingFiles (files st))) 0
              (pendingFiles (files st)) _ run Hp) as (Lt & _ & Lc).
  simpl. rewrite loop_attempts, Ha, Lt, Ht, Lc.
  split; [done|]. split; [by rewrite <- !app_assoc|]. split; [done|].
  split; [|done]. by rewrite loop_flag.
Qed.

Lemma Qpercent_full (n : nat) :
  (0 < n)%nat -> (inject_Z (Z.of_nat n) / inject_Z (Z.of_nat n) * 100 == 100)%Q.
Proof.
  intros Hn. assert (Hnz : ~ (inject_Z (Z.of_nat n) == 0)%Q).
  { unfold Qeq. simpl. lia. }
  field. exact Hnz.
Qed.

Lemma loop_progress n i rest t st :
  processingProgress (loop env n i (rest ++ [t]) st)
  = (inject_Z (Z.of_nat (i + length rest + 1)) / inject_Z (Z.of_nat n) * 100)%Q.
Proof.
  rewrite loop_app. simpl. unfold iteration. simpl.
  by destruct (recognize env (file t) _) as [m [e|r]].
Qed.

(** X12. The progress shown reaches 100 when the last targeted file has
    been handled, whatever the outcomes (the quotient of a number by
    itself is exactly 1 in doubles as well), and the [finally] block then
    puts it back to 0 and clears [isProcessing], also when initialization
    failed. *)
Theorem progress_completes (st s0 : State) :
  pendingFiles (files st) <> [] ->
  (processingProgress
     (loop env (length (pendingFiles (files st))) 0 (pendingFiles (files st)) s0)
   == 100)%Q
  /\ processingProgress (processImages env st) = 0%Q
  /\ isProcessing (processImages env st) = false.
Proof.
  intros Hne. split.
  - destruct (pendingFiles (files st)) as [|t0 ts] using rev_ind; [done|].
    rewrite loop_progress, length_app. simpl.
    replace (0 + length ts + 1)%nat with (length ts + 1)%nat by lia.
    apply Qpercent_full. lia.
  - unfold processImages.
    assert (Hfiles : files st <> []) by (intros Hnil; apply Hne; by rewrite Hnil).
    rewrite (nonempty_length _ Hfiles).
    destruct (ensure_initialized env _) as [s1 [[]|[]]]; [done|].
    by destruct (length (pendingFiles (files st)) =? 0)%nat.
Qed.

Lemma initializeOCR_ok (m : OcrService.Module_) :
  snd (OcrService.initializeOCR env m) = inr tt ->
  is_Some (OcrService.ocrPipeline (fst (OcrService.initializeOCR env m))).
Proof.
  unfold OcrService.initializeOCR.
  destruct (OcrService.ocrPipeline m) as [p|] eqn:Hp; simpl; [by rewrite Hp; eauto|].
  destruct (OcrService.pipeline env (OcrService.created m)) as [p|] eqn:Hc; [|done].
  intros _. unfold OcrService.settled, OcrService.enter_initializeOCR. rewrite Hp. simpl.
  rewrite bool_decide_eq_true_2.
  - rewrite Hc. simpl. eauto.
  - apply elem_of_app. right. by left.
Qed.

Lemma ensure_initialized_consistent (st : State) :
  consistent st ->
  snd (ensure_initialized env st) = inr tt ->
  is_Some (OcrService.ocrPipeline (ocr (fst (ensure_initialized env st))))
  /\ (ocrInitialized st = true -> fst (ensure_initialized env st) = st).
Proof.
  intros Hc. unfold ensure_initialized.
  destruct (ocrInitialized st) eqn:Hi; simpl; [by intros _; split; [apply Hc|]|].
  pose proof (initializeOCR_ok (ocr st)) as Hok.
  destruct (OcrService.initializeOCR env (ocr st)) as [m [[]|[]]]; simpl in *; [done|].
  intros _. split; [by apply Hok|done].
Qed.

(** X13. The component's flag and the module stay in step: if
    [ocrInitialized] is only set when [ocrPipeline] is, the same holds
    after a run; and a run started with the flag set keeps it set and
    never calls [pipeline(...)]. *)
Theorem run_keeps_flag_and_pipeline_in_step (st : State) :
  consistent st ->
  consistent (processImages env st)
  /\ (ocrInitialized st = true ->
      ocrInitialized (processImages env st) = true
      /\ OcrService.created (ocr (processImages env st)) = OcrService.created (ocr st)).
Proof.
  intros Hc. unfold processImages.
  destruct (length (files st) =? 0)%nat; [by split|].
  fold (begun st).
  assert (Hcb : consistent (begun st)) by exact Hc.
  pose proof (ensure_initialized_consistent (begun st) Hcb) as Hens.
  pose proof (ensure_initialized_fails env (begun st)) as Hfail.
  pose proof (ensure_initialized_flag (begun st)) as Hflag.
  destruct (ensure_initialized env (begun st)) as [s0 [[]|[]]]; simpl in *.
  - destruct (Hfail eq_refl) as (Hi & _ & Ho & _). split.
    + intros Hset. simpl in Hset. congruence.
    + intros Hset. change (ocrInitialized (begun st)) with (ocrInitialized st) in Hi.
      congruence.
  - destruct (Hens eq_refl) as [[run Hrun] Hsame]. destruct (Hflag eq_refl) as [Ho _].
    destruct (length (pendingFiles (files st)) =? 0)%nat; simpl.
    + split; [intros _; simpl; eauto|]. intros Hi. rewrite (Hsame Hi). done.
    + destruct (loop_toasts_with_pipeline (length (pendingFiles (files st))) 0
                  (pendingFiles (files st)) s0 run Hrun) as (_ & Lp & Lc).
      split; [intros _; simpl; rewrite Lp; eauto|].
      intros Hi. simpl. rewrite loop_flag, Lc, Ho. by rewrite (Hsame Hi).
Qed.

(** X14. Removing a file by id removes every record that carries the id
    and nothing else: the records left are those with another id, in
    their order; removing again changes nothing; and the rest of the
    state is not touched. *)
Theorem handleFileRemove_removes_by_id (target : string) (st : State) :
  (forall f, f ∈ files (handleFileRemove target st) <-> f ∈ files st /\ id f <> target)
  /\ files (handleFileRemove target st) `sublist_of` files st
  /\ handleFileRemove target (handleFileRemove target st) = handleFileRemove target st
  /\ ocr (handleFileRemove target st) = ocr st
  /\ ocrInitialized (handleFileRemove target st) = ocrInitialized st
  /\ toasts (handleFileRemove target st) = toasts st.
Proof.
  unfold handleFileRemove, setFiles. simpl. split_and!; try done.
  - intros f. rewrite !list_elem_of_In, filter_In.
    destruct (String.eqb_spec (id f) target); simpl; intuition congruence.
  - induction (files st) as [|x l IH]; [constructor|].
    simpl. destruct (negb (String.eqb (id x) target)); by constructor.
  - f_equal. induction (files st) as [|x l IH]; [done|].
    simpl. destruct (negb (String.eqb (id x) target)) eqn:Hx; simpl; [|done].
    by rewrite Hx, IH.
Qed.

End MoreRuns.

(** ** The status panel *)

Lemma count_cons s f l :
  Dashboard.count s (f :: l)
  = ((if ImageUpload.Status_eqb (ImageUpload.status f) s then 1 else 0)
     + Dashboard.count s l)%nat.
Proof.
  unfold Dashboard.count. simpl.
  by destruct (ImageUpload.Status_eqb (ImageUpload.status f) s).
Qed.

(** X15. The four numbers of the status panel always add up to the number
    of files, and the pending one is that of the files the next run
    targets. *)
Theorem status_counts_partition (files : list ImageUpload.UploadedFile) :
  (Dashboard.pending (Dashboard.getStatusCounts files)
   + Dashboard.processing (Dashboard.getStatusCounts files)
   + Dashboard.completed (Dashboard.getStatusCounts files)
   + Dashboard.error (Dashboard.getStatusCounts files)
   = length files)%nat
  /\ Dashboard.pending (Dashboard.getStatusCounts files)
     = length (DocumentConverter.pendingFiles files).
Proof.
  split; [|reflexivity]. simpl.
  induction files as [|f l IH]; [done|].
  rewrite !count_cons. simpl length. destruct (ImageUpload.status f); simpl; lia.
Qed.

(** ** The renderers *)

Section MoreRenderers.
Import PdfGenerator Renderers.

Lemma append_assoc (a b c : string) : ((a +:+ b) +:+ c) = (a +:+ b +:+ c).
Proof.
  induction a as [|x a IH]; [done|].
  change (String x ((a +:+ b) +:+ c) = String x (a +:+ b +:+ c)). by f_equal.
Qed.

Lemma append_nil_r (a : string) : (a +:+ "") = a.
Proof.
  induction a as [|x a IH]; [done|].
  change (String x (a +:+ "") = String x a). by f_equal.
Qed.

Lemma append_nil_l (a : string) : ("" +:+ a) = a.
Proof. reflexivity. Qed.

Lemma contains_prefix (a s needle : string) : contains s needle -> contains (a +:+ s) needle.
Proof.
  intros (pre & post & ->). exists (a +:+ pre), post. by rewrite append_assoc.
Qed.

Lemma contains_suffix (s b needle : string) : contains s needle -> contains (s +:+ b) needle.
Proof.
  intros (pre & post & ->). exists pre, (post +:+ b). by rewrite !append_assoc.
Qed.

Lemma contains_here (a needle b : string) : contains (a +:+ needle +:+ b) needle.
Proof. by exists a, b. Qed.

(** The loop only appends to what it has. *)
Lemma text_section_appends n index section content :
  text_section n index section content
  = (content +:+ text_section n index section "").
Proof.
  unfold text_section.
  destruct (JS.truthy (title section)), (negb (blank (PdfGenerator.content section))),
    (index <? n - 1)%nat; by rewrite ?append_nil_l, ?append_assoc, ?append_nil_r.
Qed.

Lemma text_sections_appends n index rest content :
  text_sections n index rest content
  = (content +:+ text_sections n index rest "").
Proof.
  revert index content. induction rest as [|s rest IH]; intros index content; simpl.
  - by rewrite append_nil_r.
  - rewrite IH, (IH _ (text_section n index s "")), text_section_appends.
    by rewrite append_assoc.
Qed.

Lemma text_section_contains n index section :
  blank (PdfGenerator.content section) = false ->
  contains (text_section n index section "")
           (PdfGenerator.content section +:+ nl +:+ nl).
Proof.
  intros Hb. unfold text_section. rewrite Hb. cbn [negb].
  destruct (JS.truthy (title section)), (index <? n - 1)%nat;
    rewrite ?append_nil_l, ?append_assoc.
  - exists (default "" (title section) +:+ nl
            +:+ repeat_char "-" (String.length (default "" (title section)))
            +:+ nl +:+ nl), ("---" +:+ nl +:+ nl).
    by rewrite !append_assoc.
  - exists (default "" (title section) +:+ nl
            +:+ repeat_char "-" (String.length (default "" (title section)))
            +:+ nl +:+ nl), "".
    by rewrite !append_assoc, append_nil_r.
  - exists "", ("---" +:+ nl +:+ nl). by rewrite append_nil_l, !append_assoc.
  - exists "", "". by rewrite append_nil_l, !append_assoc, append_nil_r.
Qed.

Lemma text_sections_contains n index rest section :
  section ∈ rest -> blank (PdfGenerator.content section) = false ->
  contains (text_sections n index rest "")
           (PdfGenerator.content section +:+ nl +:+ nl).
Proof.
  revert index. induction rest as [|s rest IH]; intros index Hin Hb.
  - by apply not_elem_of_nil in Hin.
  - simpl. rewrite text_sections_appends.
    apply elem_of_cons in Hin as [->|Hin].
    + apply contains_suffix. by apply text_section_contains.
    + apply contains_prefix. by apply IH.
Qed.

(** X17. The text export leaves out nothing it should print: the body of
    every section whose content is not blank stands in the file as it is,
    followed by an empty line, and the file starts with the header. *)
Theorem text_export_contains_every_body (today : string) (options : DocumentOptions)
    (section : DocumentSection) :
  section ∈ sections options ->
  blank (PdfGenerator.content section) = false ->
  contains (fst (generateTextFile today options))
           (PdfGenerator.content section +:+ nl +:+ nl)
  /\ exists rest, fst (generateTextFile today options)
                  = (text_header today options +:+ rest).
Proof.
  intros Hin Hb. unfold generateTextFile. simpl.
  rewrite text_sections_appends. split.
  - apply contains_prefix. by apply text_sections_contains.
  - eauto.
Qed.

(** *** The PDF layout *)

Lemma drawn_app size page (a b : list Op) :
  drawn size page (a ++ b)
  = drawn size page a ++ drawn (size_after size a) (page_after page a) b.
Proof.
  revert size page. induction a as [|op a IH]; intros size page; [done|].
  destruct op; simpl; by rewrite IH.
Qed.

Ltac split_ifs :=
  repeat match goal with
         | |- context [if ?b then _ else _] => destruct b eqn:?
         end.

(** What one section contributes, whatever the font and the page it
    starts with. *)
Lemma pdf_section_facts (pg : Page) (n index : nat) (section : DocumentSection)
    (y size page : nat) :
  (margin <= y)%nat ->
  let ops := fst (pdf_section pg n index section y) in
  (margin <= snd (pdf_section pg n index section y))%nat
  /\ Forall (well_placed pg) (drawn size page ops)
  /\ List.map lines (List.filter body_lines (drawn size page ops))
     = (if blank (content section) then []
        else [splitTextToSize pg 11 "normal" (content section) (maxWidth pg)])
  /\ length (List.filter is_rule ops) = (if (index <? n - 1)%nat then 1 else 0)%nat
  /\ List.filter is_save ops = []
  /\ (length (List.filter is_page_break ops) <= 2)%nat.
Proof.
  intros Hy. unfold pdf_section, well_placed, margin in *.
  destruct (exceeds y (sectionLimit pg)) eqn:E1;
  destruct (JS.truthy (title section)) eqn:E2;
  destruct (blank (content section)) eqn:E3; cbn [negb];
  split_ifs; cbn -[Nat.mul Nat.add];
  (split_and!;
   [ lia
   | repeat (apply Forall_cons; split; [cbn; split_and!; [lia| intros; auto | intros; auto]|]);
     try apply Forall_nil
   | reflexivity
   | reflexivity
   | reflexivity
   | lia ]);
  try discriminate; auto.
Qed.

Lemma pdf_sections_facts (pg : Page) (n : nat) (rest : list DocumentSection) :
  forall index y size page,
    (margin <= y)%nat ->
    let ops := pdf_sections pg n index rest y in
    Forall (well_placed pg) (drawn size page ops)
    /\ List.map lines (List.filter body_lines (drawn size page ops))
       = List.map (fun s => splitTextToSize pg 11 "normal" (content s) (maxWidth pg))
           (List.filter printed rest)
    /\ ((index + length rest = n)%nat ->
        length (List.filter is_rule ops) = pred (length rest))
    /\ List.filter is_save ops = []
    /\ (length (List.filter is_page_break ops) <= 2 * length rest)%nat.
Proof.
  induction rest as [|sec rest IH]; intros index y size page Hy.
  - simpl. split_and!; auto.
  - simpl.
    destruct (pdf_section_facts pg n index sec y size page Hy)
      as (Hy' & Hw & Hb & Hr & Hs & Hp).
    destruct (pdf_section pg n index sec y) as [ops y']. simpl in Hy', Hw, Hb, Hr, Hs, Hp.
    destruct (IH (S index) y' (size_after size ops) (page_after page ops) Hy')
      as (IHw & IHb & IHr & IHs & IHp).
    rewrite drawn_app, !List.filter_app, List.map_app, !length_app, Hb, IHb, Hr, Hs, IHs.
    split_and!.
    + by apply Forall_app.
    + unfold printed. by destruct (blank (content sec)).
    + intros Hn. rewrite IHr by lia.
      destruct rest as [|sec' rest'].
      * simpl in *. replace (index <? n - 1)%nat with false; [done|].
        symmetry. apply Nat.ltb_ge. lia.
      * simpl in *. replace (index <? n - 1)%nat with true; [done|].
        symmetry. apply Nat.ltb_lt. lia.
    + done.
    + simpl. lia.
Qed.

Lemma pdf_header_facts (pg : Page) (today : string) (options : DocumentOptions)
    (size page : nat) :
  let ops := fst (pdf_title pg options margin)
             ++ fst (pdf_metadata today options (snd (pdf_title pg options margin))) in
  (margin <= snd (pdf_metadata today options (snd (pdf_title pg options margin))))%nat
  /\ Forall (well_placed pg) (drawn size page ops)
  /\ List.filter body_lines (drawn size page ops) = []
  /\ List.filter is_rule ops = []
  /\ List.filter is_save ops = []
  /\ List.filter is_page_break ops = [].
Proof.
  unfold pdf_title, pdf_metadata, well_placed, margin.
  destruct (JS.truthy (doc_title options)) eqn:E1;
  destruct (JS.truthy (author options)) eqn:E2;
  destruct (JS.truthy (subject options)) eqn:E3; cbn -[Nat.mul Nat.add];
  (split_and!;
   [ lia
   | repeat (apply Forall_cons; split;
             [cbn; split_and!; [lia| intros; discriminate | intros; discriminate]|]);
     try apply Forall_nil
   | reflexivity | reflexivity | reflexivity | reflexivity ]);
  try exact I.
Qed.

Lemma generatePDF_unfold (pg : Page) (today : string) (options : DocumentOptions) :
  generatePDF pg today options
  = (fst (pdf_title pg options margin)
     ++ fst (pdf_metadata today options (snd (pdf_title pg options margin))))
    ++ pdf_sections pg (length (sections options)) 0 (sections options)
         (snd (pdf_metadata today options (snd (pdf_title pg options margin))))
    ++ [save (generatePDF_filename options)].
Proof.
  unfold generatePDF. destruct (pdf_title pg options margin) as [ops1 y1].
  simpl. destruct (pdf_metadata today options y1) as [ops2 y2]. simpl.
  by rewrite <- app_assoc.
Qed.

(** X18. The calls [generatePDF] makes: one rule between consecutive
    sections and none after the last, at most two page breaks per section
    and none for the header, and [save] exactly once, as the last call, with
    the name derived from the title. *)
Theorem pdf_rules_breaks_and_save (pg : Page) (today : string)
    (options : DocumentOptions) :
  length (List.filter is_rule (generatePDF pg today options))
  = pred (length (sections options))
  /\ (length (List.filter is_page_break (generatePDF pg today options))
      <= 2 * length (sections options))%nat
  /\ exists calls,
       generatePDF pg today options = calls ++ [save (generatePDF_filename options)]
       /\ List.filter is_save calls = [].
Proof.
  rewrite generatePDF_unfold.
  destruct (pdf_header_facts pg today options 16 0) as (Hy & _ & _ & Hr & Hs & Hp).
  destruct (pdf_sections_facts pg (length (sections options)) (sections options) 0 _ 16 0 Hy)
    as (_ & _ & Sr & Ss & Sp).
  set (header := fst (pdf_title pg options margin) ++ _) in *.
  set (body := pdf_sections pg _ _ _ _) in *.
  split_and!.
  - rewrite (List.filter_app _ header), (List.filter_app _ body), !length_app, Hr, Sr by done.
    simpl. lia.
  - rewrite (List.filter_app _ header), (List.filter_app _ body), !length_app, Hp.
    simpl. lia.
  - exists (header ++ body). rewrite <- app_assoc. split; [reflexivity|].
    by rewrite List.filter_app, Hs, Ss.
Qed.

(** X19. Where [generatePDF] draws: no text starts above the top margin;
    the body of a section either ends above the bottom margin or starts at
    the top of a page it was moved to, so a body is cut by the page end only
    when it is taller than a page; and the title of a section starts above
    the threshold of 60 units from the page end or at the top of a new
    page. *)
Theorem pdf_texts_are_well_placed (pg : Page) (today : string)
    (options : DocumentOptions) (size page : nat) :
  Forall (well_placed pg) (drawn size page (generatePDF pg today options)).
Proof.
  rewrite generatePDF_unfold.
  destruct (pdf_header_facts pg today options size page) as (Hy & Hw & _).
  set (header := fst (pdf_title pg options margin) ++ _) in *.
  rewrite (drawn_app _ _ header).
  apply Forall_app. split; [done|]. rewrite drawn_app. apply Forall_app. split.
  - by apply pdf_sections_facts.
  - simpl. constructor.
Qed.

(** X20. The bodies [generatePDF] draws are exactly those of the sections
    whose content is not blank, each once, in the order of the sections,
    split into lines at the body font; nothing else is drawn at that
    size. *)
Theorem pdf_draws_every_body_once (pg : Page) (today : string)
    (options : DocumentOptions) (size page : nat) :
  List.map lines
    (List.filter body_lines (drawn size page (generatePDF pg today options)))
  = List.map (fun s => splitTextToSize pg 11 "normal" (content s) (maxWidth pg))
      (List.filter printed (sections options)).
Proof.
  rewrite generatePDF_unfold.
  destruct (pdf_header_facts pg today options size page) as (Hy & _ & Hb & _).
  set (header := fst (pdf_title pg options margin) ++ _) in *.
  destruct (pdf_sections_facts pg (length (sections options)) (sections options) 0 _
              (size_after size header) (page_after page header) Hy) as (_ & Sb & _).
  set (body := pdf_sections pg _ _ _ _) in *.
  rewrite (drawn_app _ _ header), List.filter_app, Hb. cbn [app].
  rewrite (drawn_app _ _ body), List.filter_app, List.map_app, Sb.
  simpl. by rewrite app_nil_r.
Qed.

End MoreRenderers.

(** ** File names *)

Lemma name_char_lower (c : ascii) :
  JS.lower_char (if JS.in_class_az09_i c then c else "_"%char) = name_char c.
Proof. unfold name_char. by destruct (JS.in_class_az09_i c). Qed.

Lemma name_char_safe (c : ascii) : safe_char (name_char c) = true.
Proof. destruct c as [[] [] [] [] [] [] [] []]; vm_compute; reflexivity. Qed.

Lemma name_char_idempotent (c : ascii) : name_char (name_char c) = name_char c.
Proof. destruct c as [[] [] [] [] [] [] [] []]; vm_compute; reflexivity. Qed.

(** X21. The base name derived from a title has as many characters as the
    title, each a lower-case ASCII letter, a digit or an underscore (so no
    separator, dot or upper-case letter can come from the title), and
    deriving a name from a derived name gives it back. *)
Theorem derived_name_is_safe (t : string) :
  all_chars safe_char (PdfGenerator.base_name t) = true
  /\ String.length (PdfGenerator.base_name t) = String.length t
  /\ PdfGenerator.base_name (PdfGenerator.base_name t) = PdfGenerator.base_name t.
Proof.
  induction t as [|c t (IH1 & IH2 & IH3)]; [done|].
  rewrite base_name_cons, name_char_lower, base_name_cons, name_char_lower.
  simpl. rewrite IH1, IH2, IH3, name_char_safe, name_char_idempotent.
  done.
Qed.

(** ** Editing sections *)

Section MoreEditing.
Import ImageUpload DocumentPreview.

(** X22. An edit concerns one file: the content shown and exported for a
    file with another id is what it was, and the title and author of the
    document are not touched. *)
Theorem edit_leaves_other_files_alone (a t : string) (st : State) (f : UploadedFile) :
  id f <> a ->
  getSectionContent (handleSectionEdit a t st) f = getSectionContent st f
  /\ documentTitle (handleSectionEdit a t st) = documentTitle st
  /\ author (handleSectionEdit a t st) = author st.
Proof.
  intros Hne. unfold getSectionContent, handleSectionEdit. simpl.
  by rewrite lookup_insert_ne.
Qed.

(** X23. Edits compose as assignments: of two edits of the same file the
    later one stands, and edits of different files can be made in either
    order. *)
Theorem edits_compose (a b ta tb t : string) (st : State) :
  a <> b ->
  handleSectionEdit a t (handleSectionEdit a ta st) = handleSectionEdit a t st
  /\ handleSectionEdit a ta (handleSectionEdit b tb st)
     = handleSectionEdit b tb (handleSectionEdit a ta st).
Proof.
  intros Hne. unfold handleSectionEdit. simpl. split.
  - by rewrite insert_insert_eq.
  - f_equal. by apply insert_insert_ne.
Qed.

Lemma imap_ext_elem {A B} (g h : nat -> A -> B) (l : list A) :
  (forall i x, x ∈ l -> g i x = h i x) -> imap g l = imap h l.
Proof.
  intros H. apply imap_ext. intros i x Hx. apply H.
  by apply list_elem_of_lookup_2 in Hx.
Qed.

(** X24. An edit stored for a file that is not exported (not completed,
    without text, or no longer in the queue) changes nothing in the
    document produced. *)
Theorem edit_of_unexported_file_is_inert (a t : string) (st : State)
    (files : list UploadedFile) :
  (forall f, f ∈ completedFiles files -> id f <> a) ->
  options (handleSectionEdit a t st) files = options st files.
Proof.
  intros Hne. unfold options. simpl. f_equal.
  apply imap_ext_elem. intros i f Hf. unfold section. f_equal.
  unfold getSectionContent, handleSectionEdit. simpl.
  by rewrite lookup_insert_ne by (apply not_eq_sym; by apply Hne).
Qed.

(** X25. From the editor to the file: after a section of an exported file
    has been edited to a text that is not blank, the text export contains
    that text as the body of a section. *)
Theorem edit_reaches_text_export (today t : string) (st : State)
    (files : list UploadedFile) (f : UploadedFile) :
  f ∈ completedFiles files ->
  Renderers.blank t = false ->
  contains
    (fst (Renderers.generateTextFile today
            (options (handleSectionEdit (id f) t st) files)))
    (t +:+ Renderers.nl +:+ Renderers.nl).
Proof.
  intros Hf Hb.
  assert (Ht : t <> "") by (intros ->; discriminate).
  apply list_elem_of_lookup in Hf as [i Hi].
  set (st' := handleSectionEdit (id f) t st).
  assert (Hsec : section st' i f ∈ PdfGenerator.sections (options st' files)).
  { unfold options. simpl. apply list_elem_of_lookup. exists i.
    by rewrite list_lookup_imap, Hi. }
  assert (Hc : PdfGenerator.content (section st' i f) = t).
  { simpl. rewrite getSectionContent_spec. unfold Spec.body_nonempty. subst st'. simpl.
    rewrite lookup_insert_eq. by destruct (String.eqb_spec t ""). }
  unfold Renderers.generateTextFile. simpl.
  rewrite text_sections_appends. apply contains_prefix.
  rewrite <- Hc. apply text_sections_contains; [exact Hsec|by rewrite Hc].
Qed.

End MoreEditing.

(** ** Instances *)

Lemma incomplete_batch_adds_nothing_witness :
  ImageUpload.onDrop Samples.mixed [Examples.load 0]
  = ([], List.map rejection (List.filter rejected Samples.mixed)).
Proof.
  apply (incomplete_batch_adds_nothing Samples.mixed [Examples.load 0]).
  right. vm_compute. lia.
Defined.

Lemma complete_batch_is_queued_in_load_order_witness :
  ImageUpload.file <$> fst (ImageUpload.onDrop Samples.mixed Samples.both_loads)
  ≡ₚ List.filter Spec.accepted Samples.mixed.
Proof.
  apply (complete_batch_is_queued_in_load_order Samples.mixed Samples.both_loads).
  - vm_compute. apply perm_swap.
  - vm_compute. discriminate.
Defined.

Lemma batch_ids_are_distinct_witness :
  NoDup (ImageUpload.id <$> fst (ImageUpload.onDrop Samples.mixed Samples.both_loads)).
Proof.
  apply (batch_ids_are_distinct Samples.mixed Samples.both_loads).
  apply (bool_decide_unpack _). vm_compute. exact I.
Defined.

Lemma set_pipeline_survives_recognition_witness :
  OcrService.ocrPipeline
    (fst (OcrService.extractTextFromImage Examples.one_broken
            {| OcrService.width := 640; OcrService.height := 480;
               OcrService.pixels := "broken.png" |}
            {| OcrService.ocrPipeline := Some Examples.picky; OcrService.created := 1;
               OcrService.inflight := []; OcrService.assigned := 1;
               OcrService.inferences := 0 |}))
  = Some Examples.picky.
Proof.
  apply (set_pipeline_survives_recognition Examples.one_broken). reflexivity.
Defined.

Lemma failed_initialization_is_retried_witness :
  OcrService.ocrPipeline
    (fst (OcrService.initializeOCR Samples.flaky
            (fst (OcrService.initializeOCR Samples.flaky OcrService.initial))))
  = Some Examples.hello.
Proof.
  apply (failed_initialization_is_retried Samples.flaky OcrService.initial Examples.hello);
    reflexivity.
Defined.

Lemma recognition_initializes_lazily_witness :
  OcrService.created
    (fst (OcrService.extractTextFromImage Examples.healthy Examples.photo
            OcrService.initial))
  = 1%nat.
Proof.
  apply (recognition_initializes_lazily Examples.healthy Examples.photo OcrService.initial);
    reflexivity.
Defined.

Lemma run_processes_every_pending_file_witness :
  DocumentConverter.files
    (DocumentConverter.processImages Examples.one_broken
       (Examples.session Examples.waiting))
  = List.map
      (fun f => if ImageUpload.Status_eqb (ImageUpload.status f) ImageUpload.pending
                then after_recognition
                       (outcome Examples.one_broken Examples.picky (ImageUpload.file f)) f
                else f)
      (DocumentConverter.files (Examples.session Examples.waiting)).
Proof.
  apply (run_processes_every_pending_file Examples.one_broken
           (Examples.session Examples.waiting) Examples.picky).
  - apply (bool_decide_unpack _). vm_compute. exact I.
  - reflexivity.
  - reflexivity.
Defined.

Lemma run_reports_every_target_witness :
  DocumentConverter.isProcessing
    (DocumentConverter.processImages Examples.one_broken
       (Examples.session Examples.waiting)) = false.
Proof.
  apply (run_reports_every_target Examples.one_broken
           (Examples.session Examples.waiting) Examples.picky).
  - vm_compute. discriminate.
  - reflexivity.
  - reflexivity.
Defined.

Lemma progress_completes_witness :
  DocumentConverter.processingProgress
    (DocumentConverter.processImages Examples.one_broken
       (Examples.session Examples.waiting)) = 0%Q.
Proof.
  apply (progress_completes Examples.one_broken (Examples.session Examples.waiting)
           (Examples.session Examples.waiting)).
  vm_compute. discriminate.
Defined.

Lemma run_keeps_flag_and_pipeline_in_step_witness :
  consistent
    (DocumentConverter.processImages Examples.healthy
       (DocumentConverter.processImages Examples.healthy
          (Examples.session Examples.waiting))).
Proof.
  apply (run_keeps_flag_and_pipeline_in_step Examples.healthy
           (DocumentConverter.processImages Examples.healthy
              (Examples.session Examples.waiting))).
  intros _. vm_compute. eauto.
Defined.

Lemma text_export_contains_every_body_witness :
  contains (fst (Renderers.generateTextFile "11/2/2026" (Samples.report_of "alpha")))
           ("alpha" +:+ Renderers.nl +:+ Renderers.nl).
Proof.
  apply (text_export_contains_every_body "11/2/2026" (Samples.report_of "alpha")
           {| PdfGenerator.title := Some "Section 1 - a.png";
              PdfGenerator.content := "alpha";
              PdfGenerator.imageUrl := None |}).
  - simpl. by left.
  - reflexivity.
Defined.

Lemma edit_leaves_other_files_alone_witness :
  DocumentPreview.getSectionContent
    (DocumentPreview.handleSectionEdit "1700000000000-1" "beta" DocumentPreview.initial)
    (Examples.record "1700000000000-0" "a.png" ImageUpload.completed (Some "alpha"))
  = DocumentPreview.getSectionContent DocumentPreview.initial
      (Examples.record "1700000000000-0" "a.png" ImageUpload.completed (Some "alpha")).
Proof.
  apply (edit_leaves_other_files_alone "1700000000000-1" "beta" DocumentPreview.initial).
  simpl. discriminate.
Defined.

Lemma edits_compose_witness :
  DocumentPreview.handleSectionEdit "A" "second"
    (DocumentPreview.handleSectionEdit "A" "first" DocumentPreview.initial)
  = DocumentPreview.handleSectionEdit "A" "second" DocumentPreview.initial.
Proof.
  apply (edits_compose "A" "B" "first" "other" "second" DocumentPreview.initial).
  discriminate.
Defined.

Lemma edit_of_unexported_file_is_inert_witness :
  DocumentPreview.options
    (DocumentPreview.handleSectionEdit "1700000000000-1" "beta" DocumentPreview.initial)
    Samples.done_files
  = DocumentPreview.options DocumentPreview.initial Samples.done_files.
Proof.
  apply (edit_of_unexported_file_is_inert "1700000000000-1" "beta" DocumentPreview.initial
           Samples.done_files).
  intros f Hf. vm_compute in Hf.
  apply elem_of_cons in Hf as [->|Hf]; [discriminate|]. by apply not_elem_of_nil in Hf.
Defined.

Lemma edit_reaches_text_export_witness :
  contains
    (fst (Renderers.generateTextFile "11/2/2026"
            (DocumentPreview.options
               (DocumentPreview.handleSectionEdit "1700000000000-0" "edited text"
                  DocumentPreview.initial)
               Samples.done_files)))
    ("edited text" +:+ Renderers.nl +:+ Renderers.nl).
Proof.
  apply (edit_reaches_text_export "11/2/2026" "edited text" DocumentPreview.initial
           Samples.done_files
           (Examples.record "1700000000000-0" "a.png" ImageUpload.completed (Some "alpha"))).
  - vm_compute. by left.
  - reflexivity.
Defined.

Lemma pending_file_ends_terminal_witness :
  exists f',
    DocumentConverter.files
      (DocumentConverter.processImages Examples.one_broken
         (Examples.session Examples.waiting)) !! 1%nat = Some f'
    /\ ImageUpload.id f' = "1700000000000-1"
    /\ ImageUpload.file f' = Examples.png "broken.png"
    /\ (ImageUpload.status f' = ImageUpload.completed
        \/ ImageUpload.status f' = ImageUpload.error).
Proof.
  apply (pending_file_ends_terminal Examples.one_broken
           (Examples.session Examples.waiting) 1
           (Examples.record "1700000000000-1" "broken.png" ImageUpload.pending None));
    reflexivity.
Defined.
